(** * mini-overlay: a point-to-point L3 overlay over UDP

    Shallow embedding of [cmd/mini-overlay/main.go] (the two revisions of the
    program kept in the repository) and of the part of
    [golang.org/x/crypto/nacl/secretbox] that [box.seal] and [box.open] call.

    Byte strings ([[]byte], [[24]byte], [[32]byte]) are [list byte]; [uint32]
    words are [Z] with the wrap-around written out; a nil-able [*net.UDPAddr]
    is an [option]; goroutines are run one loop iteration at a time, every
    result the operating system hands back (a TUN read, a UDP read, the
    random source) being an explicit input of the iteration. *)

From Stdlib Require Import ZArith NArith Bool Lia String Ascii DecimalString.
From Stdlib Require Import Strings.Byte List.
Import ListNotations.

Local Open Scope Z_scope.

(** ** Bytes and words *)

Definition bytes := list byte.

Definition Z_of_byte (b : byte) : Z := Z.of_N (Byte.to_N b).

(** Go's conversion [byte(u)]: the low eight bits. *)
Definition byte_of_Z (z : Z) : byte :=
  match Byte.of_N (Z.to_N (z mod 256)) with
  | Some b => b
  | None => x00
  end.

Definition bxor (a b : byte) : byte :=
  byte_of_Z (Z.lxor (Z_of_byte a) (Z_of_byte b)).

(** [for i, x := range a { out[i] = k[i] ^ x }]: as long as [a]. *)
Fixpoint xor_bytes (a k : bytes) : bytes :=
  match a, k with
  | x :: a', y :: k' => bxor x y :: xor_bytes a' k'
  | _, _ => []
  end.

Definition mask32 : Z := 0xffffffff.

Definition add32 (a b : Z) : Z := Z.land (a + b) mask32.

(** [bits.RotateLeft32]. *)
Definition RotateLeft32 (x : Z) (k : Z) : Z :=
  Z.lor (Z.land (Z.shiftl x k) mask32) (Z.shiftr x (32 - k)).

(** [uint32(a[i]) | uint32(a[i+1])<<8 | uint32(a[i+2])<<16 | uint32(a[i+3])<<24] *)
Definition load32 (a : bytes) (i : nat) : Z :=
  Z.lor (Z.lor (Z.lor (Z_of_byte (nth i a x00))
                      (Z.shiftl (Z_of_byte (nth (i + 1) a x00)) 8))
               (Z.shiftl (Z_of_byte (nth (i + 2) a x00)) 16))
        (Z.shiftl (Z_of_byte (nth (i + 3) a x00)) 24).

Definition store32 (x : Z) : bytes :=
  [byte_of_Z x; byte_of_Z (Z.shiftr x 8);
   byte_of_Z (Z.shiftr x 16); byte_of_Z (Z.shiftr x 24)].

(** Little-endian value of a byte string, and its inverse on [n] bytes. *)
Fixpoint le_value (a : bytes) : Z :=
  match a with
  | [] => 0
  | x :: a' => Z_of_byte x + 256 * le_value a'
  end.

Fixpoint le_bytes (n : nat) (z : Z) : bytes :=
  match n with
  | O => []
  | S n' => byte_of_Z z :: le_bytes n' (Z.shiftr z 8)
  end.

Definition bytes_eqb (a b : bytes) : bool :=
  if list_eq_dec Byte.byte_eq_dec a b then true else false.

(** ** golang.org/x/crypto/salsa20/salsa *)

Module salsa.

(** [Sigma]: the Salsa20 constant for 256-bit keys, "expand 32-byte k". *)
Definition Sigma : bytes :=
  [x65; x78; x70; x61; x6e; x64; x20; x33;
   x32; x2d; x62; x79; x74; x65; x20; x6b].

Definition rounds : nat := 20.

Definition words16 : Type :=
  (Z * Z * Z * Z * Z * Z * Z * Z * Z * Z * Z * Z * Z * Z * Z * Z)%type.

(** One quarter of a round on the words [a b c d]:
    [b ^= (a+d)<<<7; c ^= (b+a)<<<9; d ^= (c+b)<<<13; a ^= (d+c)<<<18]. *)
Definition quarter (a b c d : Z) : Z * Z * Z * Z :=
  let b := Z.lxor b (RotateLeft32 (add32 a d) 7) in
  let c := Z.lxor c (RotateLeft32 (add32 b a) 9) in
  let d := Z.lxor d (RotateLeft32 (add32 c b) 13) in
  let a := Z.lxor a (RotateLeft32 (add32 d c) 18) in
  (a, b, c, d).

(** The body of [for i := 0; i < rounds; i += 2]: columns, then rows. *)
Definition doubleround (x : words16) : words16 :=
  let '(z0, z1, z2, z3, z4, z5, z6, z7,
        z8, z9, z10, z11, z12, z13, z14, z15) := x in
  let '(z0, z4, z8, z12) := quarter z0 z4 z8 z12 in
  let '(z5, z9, z13, z1) := quarter z5 z9 z13 z1 in
  let '(z10, z14, z2, z6) := quarter z10 z14 z2 z6 in
  let '(z15, z3, z7, z11) := quarter z15 z3 z7 z11 in
  let '(z0, z1, z2, z3) := quarter z0 z1 z2 z3 in
  let '(z5, z6, z7, z4) := quarter z5 z6 z7 z4 in
  let '(z10, z11, z8, z9) := quarter z10 z11 z8 z9 in
  let '(z15, z12, z13, z14) := quarter z15 z12 z13 z14 in
  (z0, z1, z2, z3, z4, z5, z6, z7, z8, z9, z10, z11, z12, z13, z14, z15).

(** The words [j0 .. j15] built from constant [c], key [k], input [inp]. *)
Definition initial (inp k c : bytes) : words16 :=
  (load32 c 0, load32 k 0, load32 k 4, load32 k 8,
   load32 k 12, load32 c 4, load32 inp 0, load32 inp 4,
   load32 inp 8, load32 inp 12, load32 c 8, load32 k 16,
   load32 k 20, load32 k 24, load32 k 28, load32 c 12).

(** [core]: 64 bytes of key stream for the 16-byte input [inp]. *)
Definition core (inp k c : bytes) : bytes :=
  let j := initial inp k c in
  let '(j0, j1, j2, j3, j4, j5, j6, j7,
        j8, j9, j10, j11, j12, j13, j14, j15) := j in
  let '(z0, z1, z2, z3, z4, z5, z6, z7,
        z8, z9, z10, z11, z12, z13, z14, z15) :=
    Nat.iter (rounds / 2) doubleround j in
  store32 (add32 z0 j0) ++ store32 (add32 z1 j1) ++
  store32 (add32 z2 j2) ++ store32 (add32 z3 j3) ++
  store32 (add32 z4 j4) ++ store32 (add32 z5 j5) ++
  store32 (add32 z6 j6) ++ store32 (add32 z7 j7) ++
  store32 (add32 z8 j8) ++ store32 (add32 z9 j9) ++
  store32 (add32 z10 j10) ++ store32 (add32 z11 j11) ++
  store32 (add32 z12 j12) ++ store32 (add32 z13 j13) ++
  store32 (add32 z14 j14) ++ store32 (add32 z15 j15).

(** [HSalsa20]: the 32-byte sub-key; no final addition, words
    0, 5, 10, 15, 6, 7, 8, 9 of the state. *)
Definition HSalsa20 (inp k c : bytes) : bytes :=
  let '(z0, z1, z2, z3, z4, z5, z6, z7,
        z8, z9, z10, z11, z12, z13, z14, z15) :=
    Nat.iter (rounds / 2) doubleround (initial inp k c) in
  store32 z0 ++ store32 z5 ++ store32 z10 ++ store32 z15 ++
  store32 z6 ++ store32 z7 ++ store32 z8 ++ store32 z9.

(** [u := uint32(1); for i := 8; i < 16; i++ { u += uint32(c[i]);
    c[i] = byte(u); u >>= 8 }] on the bytes [c[8:]]. *)
Fixpoint add_carry (u : Z) (c : bytes) : bytes :=
  match c with
  | [] => []
  | x :: c' =>
      let u := u + Z_of_byte x in
      byte_of_Z u :: add_carry (Z.shiftr u 8) c'
  end.

Definition next_counter (counter : bytes) : bytes :=
  firstn 8 counter ++ add_carry 1 (skipn 8 counter).

(** The loop of [XORKeyStream]; [fuel] bounds the number of blocks. *)
Fixpoint xor_blocks (fuel : nat) (inp counter key : bytes) : bytes :=
  match fuel with
  | O => []
  | S fuel' =>
      if (64 <=? length inp)%nat then
        xor_bytes (firstn 64 inp) (core counter key Sigma)
          ++ xor_blocks fuel' (skipn 64 inp) (next_counter counter) key
      else if (0 <? length inp)%nat then
        xor_bytes inp (core counter key Sigma)
      else []
  end.

(** [XORKeyStream(out, in, counter, key)], returning [out[:len(in)]]. *)
Definition XORKeyStream (inp counter key : bytes) : bytes :=
  xor_blocks (length inp) inp counter key.

End salsa.

(** ** golang.org/x/crypto/poly1305 *)

Module poly1305.

Definition TagSize : nat := 16.

Definition p1305 : Z := 2 ^ 130 - 5.

(** The clamp of the first key half. *)
Definition rMask : Z := 0x0ffffffc0ffffffc0ffffffc0fffffff.

(** The accumulator over the 16-byte blocks of the message; a block of
    [n] bytes counts as its little-endian value plus [2^(8n)]. *)
Fixpoint update (fuel : nat) (h r : Z) (m : bytes) : Z :=
  match fuel with
  | O => h
  | S fuel' =>
      match m with
      | [] => h
      | _ =>
          let blk := firstn TagSize m in
          let n := le_value blk + 2 ^ (8 * Z.of_nat (length blk)) in
          update fuel' (((h + n) * r) mod p1305) r (skipn TagSize m)
      end
  end.

(** [Sum(out, m, key)]: the 16-byte authenticator of [m]. *)
Definition Sum (m key : bytes) : bytes :=
  let r := Z.land (le_value (firstn 16 key)) rMask in
  let s := le_value (firstn 16 (skipn 16 key)) in
  let h := update (length m) 0 r m in
  le_bytes TagSize ((h + s) mod 2 ^ 128).

(** [Verify(mac, m, key)]: recompute and compare. *)
Definition Verify (mac m key : bytes) : bool :=
  bytes_eqb (Sum m key) mac.

End poly1305.

(** ** golang.org/x/crypto/nacl/secretbox *)

Module secretbox.

Definition Overhead : nat := poly1305.TagSize.

(** [setup]: the XSalsa20 sub-key and the counter block. *)
Definition setup (nonce key : bytes) : bytes * bytes :=
  let hNonce := firstn 16 nonce in
  let subKey := salsa.HSalsa20 hNonce key salsa.Sigma in
  let counter := skipn 16 nonce ++ repeat x00 8 in
  (subKey, firstn 16 counter).

(** [counter[8] = 1] *)
Definition second_block (counter : bytes) : bytes :=
  firstn 8 counter ++ x01 :: skipn 9 counter.

(** The bytes XORed onto the message: the second half of the first key
    stream block, then the blocks from counter 1 on. *)
Definition crypt (msg firstBlock counter subKey : bytes) : bytes :=
  let firstMessageBlock := firstn 32 msg in
  let rest := skipn (length firstMessageBlock) msg in
  xor_bytes firstMessageBlock (skipn 32 firstBlock)
    ++ salsa.XORKeyStream rest (second_block counter) subKey.

(** [Seal(out, message, nonce, key)] appends the box to [out]: the tag,
    then the ciphertext. *)
Definition Seal (out message nonce key : bytes) : bytes :=
  let '(subKey, counter) := setup nonce key in
  let firstBlock := salsa.XORKeyStream (repeat x00 64) counter subKey in
  let poly1305Key := firstn 32 firstBlock in
  let ciphertext := crypt message firstBlock counter subKey in
  let tag := poly1305.Sum ciphertext poly1305Key in
  out ++ tag ++ ciphertext.

(** [Open(out, box, nonce, key)]: [None] stands for [(nil, false)]. *)
Definition Open (out box nonce key : bytes) : option bytes :=
  if (length box <? Overhead)%nat then None
  else
    let '(subKey, counter) := setup nonce key in
    let firstBlock := salsa.XORKeyStream (repeat x00 64) counter subKey in
    let poly1305Key := firstn 32 firstBlock in
    let tag := firstn poly1305.TagSize box in
    if negb (poly1305.Verify tag (skipn poly1305.TagSize box) poly1305Key)
    then None
    else Some (out ++ crypt (skipn Overhead box) firstBlock counter subKey).

End secretbox.

(** ** cmd/mini-overlay/main.go: the crypto envelope *)

Definition innerMTU : Z := 1300.

(** A Go [error] value, by its message. *)
Definition error : Type := string.

Inductive result (A : Type) : Type :=
| Ok (a : A)
| Err (e : error).

Arguments Ok {A} a.
Arguments Err {A} e%_string.

(** [type box struct { key [32]byte; enable bool }] *)
Record box : Type := mkBox { key : bytes; enable : bool }.

(** [func (b *box) seal(dst, msg []byte) ([]byte, error)].

    [rand] is what [io.ReadFull(cryptoRand.Reader, nonce[:])] delivers when
    it is called: the 24 bytes read, or the error.  It is not consulted when
    encryption is disabled. *)
Definition seal (b : box) (rand : result bytes) (dst msg : bytes)
  : result bytes :=
  if negb (enable b) then Ok (dst ++ msg)
  else
    match rand with
    | Err e => Err e
    | Ok nonce =>
        let out := firstn 0 dst in
        let out := out ++ nonce in
        Ok (secretbox.Seal out msg nonce (key b))
    end.

(** [func (b *box) open(dst, pkt []byte) ([]byte, bool)]; [None] stands for
    [(nil, false)]. *)
Definition open (b : box) (dst pkt : bytes) : option bytes :=
  if negb (enable b) then Some (dst ++ pkt)
  else if (length pkt <? 24)%nat then None
  else
    let nonce := firstn 24 pkt in
    secretbox.Open (firstn 0 dst) (skipn 24 pkt) nonce (key b).

(** ** The wire format in the words of the specification

    [nonce[24] || ciphertext || tag[16]], the ciphertext XSalsa20-encrypted,
    the tag a Poly1305 authenticator over the ciphertext under the key and
    the nonce.  [XSalsa20] and [Poly1305_tag] are the two halves of the
    secretbox construction. *)

Definition first_block (nonce k : bytes) : bytes :=
  let '(subKey, counter) := secretbox.setup nonce k in
  salsa.XORKeyStream (repeat x00 64) counter subKey.

Definition XSalsa20 (msg nonce k : bytes) : bytes :=
  let '(subKey, counter) := secretbox.setup nonce k in
  secretbox.crypt msg (first_block nonce k) counter subKey.

Definition Poly1305_tag (ciphertext nonce k : bytes) : bytes :=
  poly1305.Sum ciphertext (firstn 32 (first_block nonce k)).

Definition wire_format_spec (nonce k msg : bytes) : bytes :=
  nonce ++ XSalsa20 msg nonce k ++ Poly1305_tag (XSalsa20 msg nonce k) nonce k.

Definition wire_format_code (nonce k msg : bytes) : bytes :=
  nonce ++ Poly1305_tag (XSalsa20 msg nonce k) nonce k ++ XSalsa20 msg nonce k.

(** ** cmd/mini-overlay/main.go: the datapath *)

(** [net.UDPAddr] *)
Record UDPAddr : Type := mkUDPAddr { IP : bytes; Port : Z; Zone : string }.

(** What an iteration does to the outside, in program order. *)
Inductive effect : Type :=
| log_Println (what : string) (e : error)
| Peer_learned (a : UDPAddr)
| conn_WriteToUDP (d : bytes) (a : UDPAddr)
| ifce_Write (p : bytes).

Arguments log_Println what%_string e%_string.

(** How an iteration of a goroutine's [for] ends: [continue] (or the end of
    the body), or [return]. *)
Inductive control : Type := Continue | Return.

Definition log_if (what : string) (err : option error) : list effect :=
  match err with
  | Some e => [log_Println what e]
  | None => []
  end.

(** One iteration of the goroutine "TUN -> UDP".  [rd] is the result of
    [ifce.Read(buf)] (the packet [buf[:n]], or the error), [wr] the error of
    [conn.WriteToUDP], if any. *)
Definition outbound (b : box) (raddr : option UDPAddr)
    (rd : result bytes) (rand : result bytes) (wr : option error)
  : list effect * control :=
  match rd with
  | Err e => ([log_Println "tun read:" e], Return)
  | Ok pkt =>
      match seal b rand [] pkt with
      | Err e => ([log_Println "seal:" e], Continue)
      | Ok sealed =>
          match raddr with
          | None => ([], Continue)
          | Some a =>
              (conn_WriteToUDP sealed a :: log_if "udp write:" wr, Continue)
          end
      end
  end.

(** One iteration of the goroutine "UDP -> TUN".  [rd] is the result of
    [conn.ReadFromUDP(buf)] (the datagram [buf[:n]] and its sender, or the
    error), [wr] the error of [ifce.Write], if any.  The first component of
    the result is the new value of the shared variable [raddr]. *)
Definition inbound (b : box) (raddr : option UDPAddr)
    (rd : result (bytes * UDPAddr)) (wr : option error)
  : option UDPAddr * list effect * control :=
  match rd with
  | Err e => (raddr, [log_Println "udp read:" e], Return)
  | Ok (data, from) =>
      let '(raddr, learned) :=
        match raddr with
        | None => (Some from, [Peer_learned from])
        | Some _ => (raddr, [])
        end in
      match open b [] data with
      | None => (raddr, learned, Continue)
      | Some plain =>
          (raddr, learned ++ ifce_Write plain :: log_if "tun write:" wr,
           Continue)
      end
  end.

(** The ticker period of the keepalive goroutine, [15 * time.Second], in
    nanoseconds. *)
Definition Second : Z := 1000000000.
Definition keepalive_period : Z := 15 * Second.

(** One tick of the keepalive goroutine (the revision that has it).  [r] is
    [byte(rand.Intn(256))]; the error of [conn.WriteToUDP] is discarded. *)
Definition keepalive (b : box) (raddr : option UDPAddr)
    (r : byte) (rand : result bytes) : list effect :=
  match raddr with
  | Some a =>
      match seal b rand [] [r] with
      | Ok msg => [conn_WriteToUDP msg a]
      | Err _ => []
      end
  | None => []
  end.

(** The repository keeps two revisions of [main.go]: one with the three
    goroutines, one without the keepalive goroutine. *)
Inductive revision : Type := with_keepalive | without_keepalive.

Inductive status : Type :=
| Running
| Exited (code : Z).

(** The variables the goroutines share, which loops are still running, and
    the effects so far. *)
Record state : Type := mkState {
  raddr : option UDPAddr;
  outbound_running : bool;
  inbound_running : bool;
  proc : status;
  trace : list effect
}.

(** What the scheduler and the outside world can make happen next: one
    iteration of a loop, one tick, the delivery of SIGINT or SIGTERM (which
    lets [main] leave [<-stop]; the goroutines are not told and run on), and
    the return of [main], with which the process and its goroutines end. *)
Inductive input : Type :=
| TunRead (rd : result bytes) (rand : result bytes) (wr : option error)
| UdpRead (rd : result (bytes * UDPAddr)) (wr : option error)
| Tick (r : byte) (rand : result bytes)
| Signal
| MainReturns.

Definition running (c : control) : bool :=
  match c with
  | Continue => true
  | Return => false
  end.

Definition step (rev : revision) (b : box) (s : state) (i : input) : state :=
  match proc s with
  | Exited _ => s
  | Running =>
      match i with
      | TunRead rd rand wr =>
          if outbound_running s then
            let '(eff, c) := outbound b (raddr s) rd rand wr in
            mkState (raddr s) (running c) (inbound_running s) Running
                    (trace s ++ eff)
          else s
      | UdpRead rd wr =>
          if inbound_running s then
            let '(raddr', eff, c) := inbound b (raddr s) rd wr in
            mkState raddr' (outbound_running s) (running c) Running
                    (trace s ++ eff)
          else s
      | Tick r rand =>
          match rev with
          | with_keepalive =>
              mkState (raddr s) (outbound_running s) (inbound_running s)
                      Running (trace s ++ keepalive b (raddr s) r rand)
          | without_keepalive => s
          end
      | Signal => s
      | MainReturns =>
          mkState (raddr s) (outbound_running s) (inbound_running s)
                  (Exited 0) (trace s)
      end
  end.

Definition run (rev : revision) (b : box) (s : state) (ins : list input)
  : state :=
  fold_left (step rev b) ins s.

(** [time.NewTicker(d)] delivers one tick every [d] nanoseconds, the first
    one [d] after its creation: the number of ticks during the first
    [elapsed] nanoseconds. *)
Definition ticks_within (d elapsed : Z) : nat := Z.to_nat (elapsed / d).

(** What the ticker of the keepalive goroutine makes happen during
    [elapsed] nanoseconds; [draw k] is the byte [rand.Intn] gives and what
    the random source of [seal] delivers at tick number [k]. *)
Definition ticker_inputs (elapsed : Z) (draw : nat -> byte * result bytes)
  : list input :=
  map (fun k => Tick (fst (draw k)) (snd (draw k)))
      (seq 0 (ticks_within keepalive_period elapsed)).

(** The number of steps of a run at which [raddr] goes from [nil] to an
    address. *)
Definition learns (before after : option UDPAddr) : nat :=
  match before, after with
  | None, Some _ => 1
  | _, _ => 0
  end.

Fixpoint transitions (rev : revision) (b : box) (s : state)
    (ins : list input) : nat :=
  match ins with
  | [] => 0
  | i :: ins' =>
      (learns (raddr s) (raddr (step rev b s i))
       + transitions rev b (step rev b s i) ins')%nat
  end.

(** [main] up to the start of the goroutines.  The flags that matter are
    [-peer] and [-psk]; [environment] holds the results of the calls whose
    failure is fatal ([must], [log.Fatalf]: exit status 1). *)
Record environment : Type := mkEnv {
  water_New : option error;
  ResolveUDPAddr_local : option error;
  ListenUDP : option error;
  ResolveUDPAddr_peer : result UDPAddr;
  DecodeString_psk : result bytes
}.

Definition zero_box : box := mkBox (repeat x00 32) false.

(** [fmt.Sprintf("%d", n)] for a length. *)
Definition Sprintf_d (n : nat) : string :=
  NilZero.string_of_uint (Nat.to_uint n).

Definition main_box (pskB64 : string) (env : environment) : result box :=
  if String.eqb pskB64 "" then Ok zero_box
  else
    match DecodeString_psk env with
    | Err e => Err e
    | Ok raw =>
        if negb (length raw =? 32)%nat
        then Err (String.append "psk length must be 32, got "
                                (Sprintf_d (length raw)))
        else Ok (mkBox raw true)
    end.

Definition main_raddr (peer : string) (env : environment)
  : result (option UDPAddr) :=
  if String.eqb peer "" then Ok None
  else
    match ResolveUDPAddr_peer env with
    | Err e => Err e
    | Ok a => Ok (Some a)
    end.

Definition main_start (peer pskB64 : string) (env : environment)
  : result (box * state) :=
  match water_New env with
  | Some e => Err e
  | None =>
      match ResolveUDPAddr_local env with
      | Some e => Err e
      | None =>
          match ListenUDP env with
          | Some e => Err e
          | None =>
              match main_raddr peer env with
              | Err e => Err e
              | Ok r =>
                  match main_box pskB64 env with
                  | Err e => Err e
                  | Ok b => Ok (b, mkState r true true Running [])
                  end
              end
          end
      end
  end.

(** ** Sample values

    The inputs of the published test vectors of the primitives, and the
    values the examples below are run on. *)

Definition key1 : bytes := repeat x01 32.
Definition nonce2 : bytes := repeat x02 24.
Definition box1 : box := mkBox key1 true.
Definition box0 : box := mkBox (repeat x00 32) true.
Definition addrA : UDPAddr := mkUDPAddr [x7f; x00; x00; x01] 51820 "".
Definition addrB : UDPAddr := mkUDPAddr [x7f; x00; x00; x01] 51821 "".
Definition fresh : state := mkState None true true Running [].
Definition env0 : environment :=
  mkEnv None None None (Ok addrB) (Ok (repeat x00 32)).

Definition rfc8439_key : bytes :=
  [
   x85; xd6; xbe; x78; x57; x55; x6d; x33; x7f; x44; x52; xfe;
   x42; xd5; x06; xa8; x01; x03; x80; x8a; xfb; x0d; xb2; xfd;
   x4a; xbf; xf6; xaf; x41; x49; xf5; x1b].
Definition rfc8439_msg : bytes :=
  [
   x43; x72; x79; x70; x74; x6f; x67; x72; x61; x70; x68; x69;
   x63; x20; x46; x6f; x72; x75; x6d; x20; x52; x65; x73; x65;
   x61; x72; x63; x68; x20; x47; x72; x6f; x75; x70].
Definition rfc8439_tag : bytes :=
  [
   xa8; x06; x1d; xc1; x30; x51; x36; xc6; xc2; x2b; x8b; xaf;
   x0c; x01; x27; xa9].
Definition nacl_key : bytes :=
  [
   x1b; x27; x55; x64; x73; xe9; x85; xd4; x62; xcd; x51; x19;
   x7a; x9a; x46; xc7; x60; x09; x54; x9e; xac; x64; x74; xf2;
   x06; xc4; xee; x08; x44; xf6; x83; x89].
Definition nacl_nonce : bytes :=
  [
   x69; x69; x6e; xe9; x55; xb6; x2b; x73; xcd; x62; xbd; xa8;
   x75; xfc; x73; xd6; x82; x19; xe0; x03; x6b; x7a; x0b; x37].
Definition nacl_subkey : bytes :=
  [
   xdc; x90; x8d; xda; x0b; x93; x44; xa9; x53; x62; x9b; x73;
   x38; x20; x77; x88; x80; xf3; xce; xb4; x21; xbb; x61; xb9;
   x1c; xbd; x4c; x3e; x66; x25; x6c; xe4].
Definition go_test_box : bytes :=
  [
   x84; x42; xbc; x31; x3f; x46; x26; xf1; x35; x9e; x3b; x50;
   x12; x2b; x6c; xe6; xfe; x66; xdd; xfe; x7d; x39; xd1; x4e;
   x63; x7e; xb4; xfd; x5b; x45; xbe; xad; xab; x55; x19; x8d;
   xf6; xab; x53; x68; x43; x97; x92; xa2; x3c; x87; xdb; x70;
   xac; xb6; x15; x6d; xc5; xef; x95; x7a; xc0; x4f; x62; x76;
   xcf; x60; x93; xb8; x4b; xe7; x7f; xf0; x84; x9c; xc3; x3e;
   x34; xb7; x25; x4d; x5a; x8f; x65; xad].
Definition go_sealed : bytes := nonce2 ++ go_test_box.


(** ** Reading traces and runs *)

(** The calls of [conn.WriteToUDP] in a trace, in order. *)
Fixpoint udp_writes (t : list effect) : list (bytes * UDPAddr) :=
  match t with
  | [] => []
  | conn_WriteToUDP d a :: t' => (d, a) :: udp_writes t'
  | _ :: t' => udp_writes t'
  end.

(** The calls of [ifce.Write] in a trace, in order. *)
Fixpoint tun_writes (t : list effect) : list bytes :=
  match t with
  | [] => []
  | ifce_Write p :: t' => p :: tun_writes t'
  | _ :: t' => tun_writes t'
  end.

(** The datagrams that [conn.ReadFromUDP] delivers along a list of inputs. *)
Fixpoint datagrams (ins : list input) : list bytes :=
  match ins with
  | [] => []
  | UdpRead (Ok (data, _)) _ :: ins' => data :: datagrams ins'
  | _ :: ins' => datagrams ins'
  end.

(** The sender of the first datagram delivered before the inbound loop
    returns or [main] does. *)
Fixpoint first_sender (ins : list input) : option UDPAddr :=
  match ins with
  | [] => None
  | UdpRead (Ok (_, from)) _ :: _ => Some from
  | UdpRead (Err _) _ :: _ => None
  | MainReturns :: _ => None
  | _ :: ins' => first_sender ins'
  end.

(** ** The interface lister: [classify]

    The second program of the repository reads [/sys/class/net].  What the
    file system and the Go library answer is a record of functions:
    [os.Stat] succeeding on a path, [readFirst] of a path, [filepath.Join]
    of two elements, [strings.TrimSpace], and [strconv.ParseUint(s, 0, 32)]
    ([None] for an error). *)

Record sysfs : Type := mkSysfs {
  exists_ : string -> bool;
  readFirst : string -> string;
  Join : string -> string -> string;
  TrimSpace : string -> string;
  ParseUint : string -> option Z
}.

(** [type IfInfo struct] *)
Record IfInfo : Type := mkIfInfo {
  Name : string;
  Type_ : string;
  MTU : Z;
  Flags : string;
  MAC : string;
  IPs : list string;
  OperState : string;
  Carrier : string;
  Speed : string;
  Duplex : string;
  Driver : string;
  SysfsPath : string;
  Master : string;
  IsVirtual : bool
}.

Local Open Scope string_scope.

(** [strings.HasPrefix(s, p)] *)
Definition HasPrefix (s p : string) : bool := String.prefix p s.

(** [strings.Contains(s, sub)] *)
Fixpoint Contains (s sub : string) : bool :=
  String.prefix sub s
  || match s with
     | EmptyString => false
     | String _ s' => Contains s' sub
     end.

Definition IFF_TUN : Z := 0x0001.
Definition IFF_TAP : Z := 0x0002.

(** [func classify(name, syslink, real string, info IfInfo) string] *)
Definition classify (fs : sysfs) (name syslink real : string) (info : IfInfo)
  : string :=
  if exists_ fs (Join fs syslink "bridge") then "bridge"
  else if exists_ fs (Join fs syslink "bonding") then "bond"
  else if exists_ fs (Join fs syslink "team") then "team"
  else if exists_ fs (Join fs syslink "vxlan") then "vxlan"
  else if exists_ fs (Join fs "/proc/net/vlan" name) then "vlan"
  else if exists_ fs (Join fs syslink "tun_flags") then
    let flagsStr := readFirst fs (Join fs syslink "tun_flags") in
    match ParseUint fs (TrimSpace fs flagsStr) with
    | Some v =>
        if negb (Z.land v IFF_TAP =? 0)%Z then "tap (TAP virtual L2)"
        else if negb (Z.land v IFF_TUN =? 0)%Z then "tun (TUN virtual L3)"
        else "tun/tap"
    | None => "tun/tap"
    end
  else if String.eqb (Driver info) "veth" then "veth (virtual ethernet pair)"
  else if String.eqb (Driver info) "wireguard" then "wireguard (VPN)"
  else if String.eqb (Driver info) "macvlan" then "macvlan"
  else if String.eqb (Driver info) "ipvlan" then "ipvlan"
  else if String.eqb (Driver info) "dummy" then "dummy"
  else if String.eqb (Driver info) "tun" then "tun/tap"
  else if String.eqb (Driver info) "bridge" then "bridge"
  else if String.eqb (Driver info) "team" then "team"
  else if String.eqb name "lo" || Contains (Flags info) "loopback"
  then "loopback"
  else if HasPrefix name "br-" || HasPrefix name "br" then "bridge"
  else if HasPrefix name "veth" then "veth (virtual ethernet pair)"
  else if HasPrefix name "gre" || HasPrefix name "gretap" then "gre/gretap"
  else if HasPrefix name "vxlan" then "vxlan"
  else if HasPrefix name "wg" then "wireguard"
  else if HasPrefix name "bond" then "bond"
  else if HasPrefix name "team" then "team"
  else if HasPrefix name "macvlan" then "macvlan"
  else if HasPrefix name "ipvlan" then "ipvlan"
  else if HasPrefix name "tap" then "tap"
  else if HasPrefix name "tun" then "tun"
  else if HasPrefix name "docker" || HasPrefix name "cni"
  then "bridge (container)"
  else if HasPrefix name "flannel." then "vxlan (flannel overlay)"
  else if IsVirtual info then
    if negb (String.eqb (Driver info) "") then
      String.append "virtual (" (String.append (Driver info) ")")
    else "virtual"
  else if negb (String.eqb (Driver info) "") then
    String.append "physical (" (String.append (Driver info) ")")
  else "physical".

(** A file system for the examples: a TUN device [tun0] whose [tun_flags]
    reads [0x1001]; flags are parsed by the table below. *)
Definition fs_tun0 : sysfs :=
  mkSysfs
    (fun p => String.eqb p "/sys/class/net/tun0/tun_flags")
    (fun p => if String.eqb p "/sys/class/net/tun0/tun_flags"
              then "0x1001" else "")
    (fun a e => String.append a (String.append "/" e))
    (fun s => s)
    (fun s => if String.eqb s "0x1001" then Some 0x1001 else None).

Definition info0 : IfInfo :=
  mkIfInfo "tun0" "" 1300 "up|pointtopoint|multicast" "" [] "unknown" "1"
           "10" "full" "" "/sys/devices/virtual/net/tun0" "" true.

Local Close Scope string_scope.
(** * Properties *)

(** ** Bytes *)

Lemma Z_of_byte_range (b : byte) : 0 <= Z_of_byte b < 256.
Proof.
  unfold Z_of_byte. pose proof (Byte.to_N_bounded b). lia.
Qed.

Lemma Z_of_byte_of_Z (z : Z) : Z_of_byte (byte_of_Z z) = z mod 256.
Proof.
  unfold byte_of_Z, Z_of_byte.
  pose proof (Z.mod_pos_bound z 256 ltac:(lia)) as Hz.
  destruct (Byte.of_N (Z.to_N (z mod 256))) as [c|] eqn:E.
  - apply Byte.to_of_N in E. rewrite E. apply Z2N.id. lia.
  - apply Byte.of_N_None_iff in E. lia.
Qed.

Lemma byte_of_Z_of_byte (b : byte) : byte_of_Z (Z_of_byte b) = b.
Proof.
  pose proof (Z_of_byte_range b) as Hb.
  unfold byte_of_Z. rewrite Z.mod_small by exact Hb.
  unfold Z_of_byte. rewrite N2Z.id, Byte.of_to_N. reflexivity.
Qed.

Lemma lxor_mod_256 (x y : Z) :
  (Z.lxor x y) mod 256 = Z.lxor (x mod 256) (y mod 256).
Proof.
  change 256 with (2 ^ 8).
  apply Z.bits_inj'. intros n Hn.
  destruct (Z.ltb_spec n 8) as [Hlt | Hge].
  - rewrite Z.mod_pow2_bits_low, !Z.lxor_spec, !Z.mod_pow2_bits_low by lia.
    reflexivity.
  - rewrite Z.mod_pow2_bits_high, Z.lxor_spec, !Z.mod_pow2_bits_high by lia.
    reflexivity.
Qed.

Lemma bxor_involutive (a b : byte) : bxor (bxor a b) b = a.
Proof.
  unfold bxor. rewrite Z_of_byte_of_Z, lxor_mod_256.
  rewrite !Z.mod_small by apply Z_of_byte_range.
  rewrite Z.lxor_assoc, Z.lxor_nilpotent, Z.lxor_0_r.
  apply byte_of_Z_of_byte.
Qed.

Lemma xor_bytes_length (a k : bytes) :
  length (xor_bytes a k) = Nat.min (length a) (length k).
Proof.
  revert k. induction a as [|x a IH]; intros [|y k]; simpl; auto.
Qed.

Lemma xor_bytes_involutive (a k : bytes) :
  (length a <= length k)%nat -> xor_bytes (xor_bytes a k) k = a.
Proof.
  revert k. induction a as [|x a IH]; intros [|y k] Hlen; simpl in *;
    try reflexivity; try lia.
  rewrite bxor_involutive, IH by lia. reflexivity.
Qed.

Lemma le_bytes_length (n : nat) (z : Z) : length (le_bytes n z) = n.
Proof.
  revert z. induction n as [|n IH]; intros z; simpl; auto.
Qed.

Lemma bytes_eqb_refl (a : bytes) : bytes_eqb a a = true.
Proof.
  unfold bytes_eqb. destruct (list_eq_dec byte_eq_dec a a); congruence.
Qed.

Lemma bytes_eqb_eq (a b : bytes) : bytes_eqb a b = true -> a = b.
Proof.
  unfold bytes_eqb. destruct (list_eq_dec byte_eq_dec a b); congruence.
Qed.

(** ** The key stream *)

Lemma core_length (inp k c : bytes) : length (salsa.core inp k c) = 64%nat.
Proof.
  unfold salsa.core.
  destruct (salsa.initial inp k c)
    as [[[[[[[[[[[[[[[j0 j1] j2] j3] j4] j5] j6] j7] j8] j9] j10] j11] j12] j13] j14] j15].
  destruct (Nat.iter (salsa.rounds / 2) salsa.doubleround _)
    as [[[[[[[[[[[[[[[z0 z1] z2] z3] z4] z5] z6] z7] z8] z9] z10] z11] z12] z13] z14] z15].
  reflexivity.
Qed.

Lemma xor_blocks_length (key0 : bytes) (fuel : nat) :
  forall inp counter,
    (length inp <= fuel)%nat ->
    length (salsa.xor_blocks fuel inp counter key0) = length inp.
Proof.
  induction fuel as [|fuel IH]; intros inp counter Hlen;
    cbn [salsa.xor_blocks].
  - simpl. lia.
  - destruct (Nat.leb_spec 64 (length inp)) as [Hge | Hlt].
    + rewrite length_app, xor_bytes_length, core_length, length_firstn.
      rewrite IH by (rewrite length_skipn; lia).
      rewrite length_skipn. lia.
    + destruct (Nat.ltb_spec 0 (length inp)) as [Hpos | Hzero].
      * rewrite xor_bytes_length, core_length. lia.
      * simpl. lia.
Qed.

Lemma XORKeyStream_length (inp counter key0 : bytes) :
  length (salsa.XORKeyStream inp counter key0) = length inp.
Proof.
  unfold salsa.XORKeyStream. apply xor_blocks_length. lia.
Qed.

Lemma xor_blocks_involutive (key0 : bytes) (fuel : nat) :
  forall inp counter,
    (length inp <= fuel)%nat ->
    salsa.xor_blocks fuel (salsa.xor_blocks fuel inp counter key0)
                     counter key0 = inp.
Proof.
  induction fuel as [|fuel IH]; intros inp counter Hlen.
  - destruct inp; simpl in *; [reflexivity | lia].
  - cbn [salsa.xor_blocks].
    destruct (Nat.leb_spec 64 (length inp)) as [Hge | Hlt].
    + set (c0 := xor_bytes (firstn 64 inp) (salsa.core counter key0 salsa.Sigma)).
      set (c1 := salsa.xor_blocks fuel (skipn 64 inp)
                   (salsa.next_counter counter) key0).
      assert (Hc0 : length c0 = 64%nat).
      { unfold c0. rewrite xor_bytes_length, core_length, length_firstn. lia. }
      assert (H64 : (64 <=? length (c0 ++ c1))%nat = true).
      { apply Nat.leb_le. rewrite length_app. lia. }
      rewrite H64.
      rewrite firstn_app, skipn_app, Hc0, Nat.sub_diag.
      rewrite firstn_all2 by lia. rewrite skipn_all2 by lia.
      simpl firstn. simpl skipn. rewrite app_nil_r. simpl app.
      unfold c0, c1.
      rewrite xor_bytes_involutive
        by (rewrite core_length, length_firstn; lia).
      rewrite IH by (rewrite length_skipn; lia).
      apply firstn_skipn.
    + destruct (Nat.ltb_spec 0 (length inp)) as [Hpos | Hzero].
      * assert (Hl : length (xor_bytes inp (salsa.core counter key0 salsa.Sigma))
                     = length inp).
        { rewrite xor_bytes_length, core_length. lia. }
        rewrite Hl.
        destruct (Nat.leb_spec 64 (length inp)); [lia|].
        destruct (Nat.ltb_spec 0 (length inp)); [|lia].
        apply xor_bytes_involutive. rewrite core_length. lia.
      * destruct inp; simpl in *; [reflexivity | lia].
Qed.

Lemma XORKeyStream_involutive (inp counter key0 : bytes) :
  salsa.XORKeyStream (salsa.XORKeyStream inp counter key0) counter key0 = inp.
Proof.
  unfold salsa.XORKeyStream at 1. rewrite XORKeyStream_length.
  unfold salsa.XORKeyStream. apply xor_blocks_involutive. lia.
Qed.

(** ** secretbox *)

Lemma first_block_length (nonce k : bytes) :
  length (first_block nonce k) = 64%nat.
Proof.
  unfold first_block. destruct (secretbox.setup nonce k) as [subKey counter].
  rewrite XORKeyStream_length. apply repeat_length.
Qed.

Lemma crypt_length (msg fb counter subKey : bytes) :
  length fb = 64%nat ->
  length (secretbox.crypt msg fb counter subKey) = length msg.
Proof.
  intros Hfb. unfold secretbox.crypt.
  rewrite length_app, xor_bytes_length, XORKeyStream_length.
  rewrite !length_skipn, length_firstn, Hfb. lia.
Qed.

Lemma crypt_involutive (msg fb counter subKey : bytes) :
  length fb = 64%nat ->
  secretbox.crypt (secretbox.crypt msg fb counter subKey) fb counter subKey
  = msg.
Proof.
  intros Hfb. unfold secretbox.crypt.
  set (a := firstn 32 msg).
  set (r := skipn (length a) msg).
  set (xa := xor_bytes a (skipn 32 fb)).
  set (xr := salsa.XORKeyStream r (secretbox.second_block counter) subKey).
  assert (Hks : length (skipn 32 fb) = 32%nat)
    by (rewrite length_skipn; lia).
  assert (Ha : (length a <= 32)%nat)
    by (unfold a; rewrite length_firstn; lia).
  assert (Hxa : length xa = length a)
    by (unfold xa; rewrite xor_bytes_length; lia).
  assert (Hmsg : a ++ r = msg).
  { unfold r, a. rewrite length_firstn.
    destruct (Nat.le_gt_cases 32 (length msg)) as [Hge | Hlt].
    - rewrite Nat.min_l by lia. apply firstn_skipn.
    - rewrite Nat.min_r by lia.
      rewrite firstn_all2, skipn_all by lia. apply app_nil_r. }
  assert (Hfirst : firstn 32 (xa ++ xr) = xa /\ skipn (length xa) (xa ++ xr) = xr).
  { split.
    - destruct (Nat.le_gt_cases 32 (length msg)) as [Hge | Hlt].
      + assert (length xa = 32%nat)
          by (rewrite Hxa; unfold a; rewrite length_firstn; lia).
        rewrite firstn_app, firstn_all2 by lia.
        replace (32 - length xa)%nat with 0%nat by lia.
        simpl. apply app_nil_r.
      + assert (Hxr : length xr = 0%nat).
        { unfold xr. rewrite XORKeyStream_length. unfold r, a.
          rewrite length_skipn, length_firstn. lia. }
        destruct xr; [|discriminate Hxr].
        rewrite app_nil_r. apply firstn_all2. lia.
    - rewrite skipn_app, skipn_all, Nat.sub_diag. reflexivity. }
  destruct Hfirst as [Hf Hs].
  rewrite Hf, Hs. unfold xa, xr.
  rewrite xor_bytes_involutive by lia.
  rewrite XORKeyStream_involutive. exact Hmsg.
Qed.

Lemma XSalsa20_length (msg nonce k : bytes) :
  length (XSalsa20 msg nonce k) = length msg.
Proof.
  unfold XSalsa20. destruct (secretbox.setup nonce k) as [subKey counter].
  apply crypt_length, first_block_length.
Qed.

Lemma XSalsa20_involutive (msg nonce k : bytes) :
  XSalsa20 (XSalsa20 msg nonce k) nonce k = msg.
Proof.
  unfold XSalsa20. destruct (secretbox.setup nonce k) as [subKey counter].
  apply crypt_involutive, first_block_length.
Qed.

Lemma Poly1305_tag_length (c nonce k : bytes) :
  length (Poly1305_tag c nonce k) = 16%nat.
Proof.
  unfold Poly1305_tag, poly1305.Sum. apply le_bytes_length.
Qed.

(** [Seal] appends the tag and then the ciphertext. *)
Lemma Seal_layout (out msg nonce k : bytes) :
  secretbox.Seal out msg nonce k
  = out ++ Poly1305_tag (XSalsa20 msg nonce k) nonce k ++ XSalsa20 msg nonce k.
Proof.
  unfold secretbox.Seal, Poly1305_tag, XSalsa20, first_block.
  destruct (secretbox.setup nonce k) as [subKey counter]. reflexivity.
Qed.

Lemma Open_layout (out bx nonce k : bytes) :
  secretbox.Open out bx nonce k
  = if (length bx <? 16)%nat then None
    else if bytes_eqb (Poly1305_tag (skipn 16 bx) nonce k) (firstn 16 bx)
         then Some (out ++ XSalsa20 (skipn 16 bx) nonce k)
         else None.
Proof.
  unfold secretbox.Open, Poly1305_tag, XSalsa20, first_block, poly1305.Verify.
  change secretbox.Overhead with 16%nat. change poly1305.TagSize with 16%nat.
  destruct (secretbox.setup nonce k) as [subKey counter].
  destruct (length bx <? 16)%nat; [reflexivity|].
  destruct (bytes_eqb _ _); reflexivity.
Qed.

Lemma Seal_length (out msg nonce k : bytes) :
  length (secretbox.Seal out msg nonce k)
  = (length out + length msg + 16)%nat.
Proof.
  rewrite Seal_layout, !length_app, Poly1305_tag_length, XSalsa20_length. lia.
Qed.

Lemma Open_short (out bx nonce k : bytes) :
  (length bx < 16)%nat -> secretbox.Open out bx nonce k = None.
Proof.
  intros H. rewrite Open_layout.
  destruct (Nat.ltb_spec (length bx) 16); [reflexivity | lia].
Qed.

Lemma Open_Seal (out msg nonce k : bytes) :
  secretbox.Open out (secretbox.Seal [] msg nonce k) nonce k
  = Some (out ++ msg).
Proof.
  rewrite Open_layout, Seal_layout, app_nil_l.
  set (c := XSalsa20 msg nonce k). set (t := Poly1305_tag c nonce k).
  assert (Ht : length t = 16%nat) by apply Poly1305_tag_length.
  destruct (Nat.ltb_spec (length (t ++ c)) 16) as [Hlt | _].
  { rewrite length_app in Hlt. lia. }
  rewrite firstn_app, skipn_app, Ht, Nat.sub_diag.
  rewrite firstn_all2, skipn_all2 by lia.
  rewrite firstn_O, skipn_O, app_nil_r, app_nil_l, bytes_eqb_refl.
  unfold c. rewrite XSalsa20_involutive. reflexivity.
Qed.

Lemma Open_length (out bx nonce k r : bytes) :
  secretbox.Open out bx nonce k = Some r ->
  (16 <= length bx)%nat /\ length r = (length out + (length bx - 16))%nat.
Proof.
  rewrite Open_layout.
  destruct (Nat.ltb_spec (length bx) 16) as [Hlt | Hge]; [discriminate|].
  destruct (bytes_eqb _ _); [|discriminate].
  intros H. split; [exact Hge|].
  assert (Hr : r = out ++ XSalsa20 (skipn 16 bx) nonce k) by congruence.
  rewrite Hr, length_app, XSalsa20_length, length_skipn. reflexivity.
Qed.

(** ** The envelope: [seal] and [open] *)

Lemma seal_enabled (b : box) (nonce dst msg : bytes) :
  enable b = true ->
  seal b (Ok nonce) dst msg = Ok (wire_format_code nonce (key b) msg).
Proof.
  intros He. unfold seal, wire_format_code. rewrite He. cbn [negb].
  rewrite firstn_O, app_nil_l, Seal_layout. reflexivity.
Qed.

Lemma seal_disabled (b : box) (rand : result bytes) (dst msg : bytes) :
  enable b = false -> seal b rand dst msg = Ok (dst ++ msg).
Proof.
  intros He. unfold seal. rewrite He. reflexivity.
Qed.

Lemma open_enabled (b : box) (dst pkt : bytes) :
  enable b = true ->
  open b dst pkt
  = if (length pkt <? 24)%nat then None
    else secretbox.Open [] (skipn 24 pkt) (firstn 24 pkt) (key b).
Proof.
  intros He. unfold open. rewrite He. cbn [negb].
  rewrite firstn_O. reflexivity.
Qed.

Lemma open_disabled (b : box) (dst pkt : bytes) :
  enable b = false -> open b dst pkt = Some (dst ++ pkt).
Proof.
  intros He. unfold open. rewrite He. reflexivity.
Qed.

Lemma wire_format_code_Seal (nonce k msg : bytes) :
  wire_format_code nonce k msg = nonce ++ secretbox.Seal [] msg nonce k.
Proof.
  unfold wire_format_code. rewrite Seal_layout, app_nil_l. reflexivity.
Qed.

Lemma wire_format_code_length (nonce k msg : bytes) :
  length (wire_format_code nonce k msg)
  = (length nonce + 16 + length msg)%nat.
Proof.
  unfold wire_format_code.
  rewrite !length_app, Poly1305_tag_length, XSalsa20_length. lia.
Qed.

Lemma open_nonce_box (b : box) (dst nonce bx : bytes) :
  enable b = true -> length nonce = 24%nat ->
  open b dst (nonce ++ bx) = secretbox.Open [] bx nonce (key b).
Proof.
  intros He Hn. rewrite open_enabled by exact He.
  destruct (Nat.ltb_spec (length (nonce ++ bx)) 24) as [Hlt | _].
  { rewrite length_app in Hlt. lia. }
  rewrite firstn_app, skipn_app, Hn, Nat.sub_diag.
  rewrite firstn_all2, skipn_all2 by lia.
  rewrite firstn_O, skipn_O, app_nil_r, app_nil_l. reflexivity.
Qed.

Lemma open_seal (b : box) (nonce dst msg : bytes) :
  enable b = true -> length nonce = 24%nat ->
  open b dst (wire_format_code nonce (key b) msg) = Some msg.
Proof.
  intros He Hn. rewrite wire_format_code_Seal.
  rewrite open_nonce_box by assumption.
  rewrite Open_Seal, app_nil_l. reflexivity.
Qed.

Lemma open_accepts_length (b : box) (dst d plain : bytes) :
  enable b = true -> open b dst d = Some plain ->
  (40 <= length d)%nat /\ length plain = (length d - 40)%nat.
Proof.
  intros He. rewrite open_enabled by exact He.
  destruct (Nat.ltb_spec (length d) 24) as [Hlt | Hge]; [discriminate|].
  intros Ho. apply Open_length in Ho. rewrite length_skipn in Ho.
  change (length (@nil byte)) with 0%nat in Ho. lia.
Qed.

(** ** The claims about the envelope *)

(** C1: with encryption enabled, for every 32-byte key and every plaintext,
    whatever 24-byte nonce [seal] draws, [open] of the sealed datagram under
    the same key returns exactly the plaintext. *)
Theorem open_seal_roundtrip (b : box) (nonce p dst dst' : bytes) :
  enable b = true -> length (key b) = 32%nat -> length nonce = 24%nat ->
  exists d, seal b (Ok nonce) dst p = Ok d /\ open b dst' d = Some p.
Proof.
  intros He _ Hn. exists (wire_format_code nonce (key b) p). split.
  - apply seal_enabled, He.
  - apply open_seal; assumption.
Qed.

(** C2: with encryption enabled, [open] rejects every datagram shorter than
    24 bytes and every datagram of 39 bytes or fewer; the 40-byte datagram
    made of a nonce and the box of the empty payload is accepted. *)
Theorem open_length_boundary (b : box) (dst : bytes) :
  enable b = true ->
  (forall d, (length d < 24)%nat -> open b dst d = None) /\
  (forall d, (length d <= 39)%nat -> open b dst d = None) /\
  (forall nonce, length nonce = 24%nat ->
     length (nonce ++ secretbox.Seal [] [] nonce (key b)) = 40%nat /\
     open b dst (nonce ++ secretbox.Seal [] [] nonce (key b)) = Some []).
Proof.
  intros He.
  assert (H39 : forall d, (length d <= 39)%nat -> open b dst d = None).
  { intros d Hd. rewrite open_enabled by exact He.
    destruct (Nat.ltb_spec (length d) 24) as [Hlt | Hge]; [reflexivity|].
    apply Open_short. rewrite length_skipn. lia. }
  split; [|split].
  - intros d Hd. apply H39. lia.
  - exact H39.
  - intros nonce Hn. split.
    + rewrite length_app, Seal_length, Hn. reflexivity.
    + rewrite <- wire_format_code_Seal. apply open_seal; assumption.
Qed.

(** C3, as amended: with encryption enabled, for every plaintext (the empty
    one included) [seal] returns [nonce[24] || tag[16] || ciphertext], the tag
    before the ciphertext, of length exactly [len(plaintext) + 40], hence
    never shorter than 40 bytes. *)
Theorem seal_wire_format (b : box) (nonce dst msg : bytes) :
  enable b = true -> length nonce = 24%nat ->
  exists d,
    seal b (Ok nonce) dst msg = Ok d /\
    d = nonce ++ Poly1305_tag (XSalsa20 msg nonce (key b)) nonce (key b)
              ++ XSalsa20 msg nonce (key b) /\
    length (Poly1305_tag (XSalsa20 msg nonce (key b)) nonce (key b))
      = 16%nat /\
    length (XSalsa20 msg nonce (key b)) = length msg /\
    length d = (length msg + 40)%nat /\
    (40 <= length d)%nat.
Proof.
  intros He Hn. exists (wire_format_code nonce (key b) msg).
  split; [apply seal_enabled, He|].
  split; [reflexivity|].
  split; [apply Poly1305_tag_length|].
  split; [apply XSalsa20_length|].
  rewrite wire_format_code_length, Hn. lia.
Qed.

(** C8: with encryption disabled, [seal] and [open] return their input
    unchanged (appended to [dst], which every caller passes empty); [seal]
    never fails, whatever the random source would do, and [open] never
    rejects, whatever the length of the datagram. *)
Theorem disabled_is_identity (b : box) :
  enable b = false ->
  (forall rand dst msg, seal b rand dst msg = Ok (dst ++ msg)) /\
  (forall rand msg, seal b rand [] msg = Ok msg) /\
  (forall dst pkt, open b dst pkt = Some (dst ++ pkt)) /\
  (forall pkt, open b [] pkt = Some pkt) /\
  open b [] [] = Some [].
Proof.
  intros He. repeat split; intros.
  - apply seal_disabled, He.
  - apply (seal_disabled b rand [] msg He).
  - apply open_disabled, He.
  - apply (open_disabled b [] pkt He).
  - apply (open_disabled b [] [] He).
Qed.

(** C10: with encryption enabled, whenever [open] accepts a datagram [d],
    the plaintext it returns is exactly [len(d) - 40] bytes long, and [d] is
    at least 40 bytes long. *)
Theorem open_plaintext_length (b : box) (dst d plain : bytes) :
  enable b = true -> open b dst d = Some plain ->
  (40 <= length d)%nat /\ length plain = (length d - 40)%nat.
Proof.
  apply open_accepts_length.
Qed.

(** ** The datapath *)

Lemma inbound_raddr (b : box) (r : option UDPAddr)
    (rd : result (bytes * UDPAddr)) (wr : option error) :
  fst (fst (inbound b r rd wr))
  = match r, rd with
    | Some a, _ => Some a
    | None, Ok (_, from) => Some from
    | None, Err _ => None
    end.
Proof.
  unfold inbound. destruct rd as [[data from] | e]; destruct r as [a|];
    try reflexivity; destruct (open b [] data); reflexivity.
Qed.

Lemma inbound_control (b : box) (r : option UDPAddr)
    (rd : result (bytes * UDPAddr)) (wr : option error) :
  snd (inbound b r rd wr)
  = match rd with
    | Ok _ => Continue
    | Err _ => Return
    end.
Proof.
  unfold inbound. destruct rd as [[data from] | e]; destruct r as [a|];
    try reflexivity; destruct (open b [] data); reflexivity.
Qed.

Lemma step_UdpRead (rev : revision) (b : box) (s : state)
    (rd : result (bytes * UDPAddr)) (wr : option error) :
  proc s = Running -> inbound_running s = true ->
  step rev b s (UdpRead rd wr)
  = mkState (fst (fst (inbound b (raddr s) rd wr))) (outbound_running s)
            (running (snd (inbound b (raddr s) rd wr))) Running
            (trace s ++ snd (fst (inbound b (raddr s) rd wr))).
Proof.
  intros Hp Hi. unfold step. rewrite Hp, Hi.
  destruct (inbound b (raddr s) rd wr) as [[r eff] c]. reflexivity.
Qed.

Lemma step_TunRead (rev : revision) (b : box) (s : state)
    (rd rand : result bytes) (wr : option error) :
  proc s = Running -> outbound_running s = true ->
  step rev b s (TunRead rd rand wr)
  = mkState (raddr s) (running (snd (outbound b (raddr s) rd rand wr)))
            (inbound_running s) Running
            (trace s ++ fst (outbound b (raddr s) rd rand wr)).
Proof.
  intros Hp Ho. unfold step. rewrite Hp, Ho.
  destruct (outbound b (raddr s) rd rand wr) as [eff c]. reflexivity.
Qed.

(** How the shared variable [raddr] evolves: only a datagram received by a
    running inbound loop touches it, and only when it is [nil]. *)
Lemma step_raddr (rev : revision) (b : box) (s : state) (i : input) :
  raddr (step rev b s i)
  = match raddr s with
    | Some a => Some a
    | None =>
        match proc s, inbound_running s, i with
        | Running, true, UdpRead (Ok (_, from)) _ => Some from
        | _, _, _ => None
        end
    end.
Proof.
  destruct (proc s) as [|code] eqn:Hp.
  2:{ unfold step. rewrite Hp. destruct (raddr s); reflexivity. }
  destruct i as [rd rand wr | rd wr | r rand | | ].
  - destruct (outbound_running s) eqn:Ho.
    + rewrite step_TunRead by assumption. cbn [raddr].
      destruct (raddr s), (inbound_running s); reflexivity.
    + unfold step. rewrite Hp, Ho.
      destruct (raddr s), (inbound_running s); reflexivity.
  - destruct (inbound_running s) eqn:Hi.
    + rewrite step_UdpRead by assumption. cbn [raddr].
      rewrite inbound_raddr.
      destruct (raddr s); [reflexivity|].
      destruct rd as [[data from] | e]; reflexivity.
    + unfold step. rewrite Hp, Hi. destruct (raddr s); reflexivity.
  - unfold step. rewrite Hp.
    destruct rev; cbn [raddr]; destruct (raddr s), (inbound_running s);
      reflexivity.
  - unfold step. rewrite Hp.
    destruct (raddr s), (inbound_running s); reflexivity.
  - unfold step. rewrite Hp. cbn [raddr].
    destruct (raddr s), (inbound_running s); reflexivity.
Qed.

Lemma step_keeps_peer (rev : revision) (b : box) (s : state) (i : input)
    (a : UDPAddr) :
  raddr s = Some a -> raddr (step rev b s i) = Some a.
Proof.
  intros Hr. rewrite step_raddr, Hr. reflexivity.
Qed.

Lemma run_keeps_peer (rev : revision) (b : box) (ins : list input) :
  forall s a, raddr s = Some a -> raddr (run rev b s ins) = Some a.
Proof.
  induction ins as [|i ins IH]; intros s a Hr; simpl.
  - exact Hr.
  - apply IH. apply step_keeps_peer, Hr.
Qed.

Lemma transitions_after_set (rev : revision) (b : box) (ins : list input) :
  forall s a, raddr s = Some a -> transitions rev b s ins = 0%nat.
Proof.
  induction ins as [|i ins IH]; intros s a Hr; cbn [transitions].
  - reflexivity.
  - rewrite (IH _ a) by (apply step_keeps_peer, Hr).
    rewrite Hr. reflexivity.
Qed.

Lemma transitions_at_most_one (rev : revision) (b : box) (ins : list input) :
  forall s, (transitions rev b s ins <= 1)%nat.
Proof.
  induction ins as [|i ins IH]; intros s; cbn [transitions].
  - lia.
  - destruct (raddr (step rev b s i)) as [a|] eqn:Hs.
    + rewrite (transitions_after_set rev b ins _ a Hs).
      destruct (raddr s); simpl; lia.
    + specialize (IH (step rev b s i)).
      destruct (raddr s); simpl; lia.
Qed.

(** ** The claims about the datapath *)

(** C4, as amended: when no peer was configured at startup the peer address
    starts unset, and it moves from unset to set on the first datagram the
    inbound loop receives, before [open] is called and whether or not [open]
    accepts the datagram; nothing else sets it. *)
Theorem peer_learned_on_first_datagram (rev : revision) (b : box) (s : state) :
  proc s = Running -> inbound_running s = true -> raddr s = None ->
  (forall data from wr,
     raddr (step rev b s (UdpRead (Ok (data, from)) wr)) = Some from) /\
  (forall i, raddr (step rev b s i) <> None ->
     exists data from wr,
       i = UdpRead (Ok (data, from)) wr /\
       raddr (step rev b s i) = Some from) /\
  (forall pskB64 env b0 s0,
     main_start "" pskB64 env = Ok (b0, s0) ->
     raddr s0 = None /\ proc s0 = Running /\ inbound_running s0 = true).
Proof.
  intros Hp Hi Hr. split; [|split].
  - intros data from wr. rewrite step_raddr, Hr, Hp, Hi. reflexivity.
  - intros i Hne. rewrite step_raddr, Hr, Hp, Hi in Hne.
    rewrite step_raddr, Hr, Hp, Hi.
    destruct i as [rd rand wr | [[data from] | e] wr | r rand | | ];
      try congruence.
    exists data, from, wr. split; reflexivity.
  - intros pskB64 env b0 s0. unfold main_start, main_raddr.
    cbn [String.eqb].
    destruct (water_New env); [discriminate|].
    destruct (ResolveUDPAddr_local env); [discriminate|].
    destruct (ListenUDP env); [discriminate|].
    destruct (main_box pskB64 env); [|discriminate].
    intros H. injection H as _ <-. repeat split.
Qed.

(** C5: along every run the peer address goes from unset to set at most
    once; once set, at startup or by learning, it keeps its value whatever
    happens, in particular when a datagram that [open] accepts arrives from
    another address. *)
Theorem peer_set_at_most_once (rev : revision) (b : box) (s : state)
    (ins : list input) :
  (transitions rev b s ins <= 1)%nat /\
  (forall a, raddr s = Some a ->
     raddr (run rev b s ins) = Some a /\
     transitions rev b s ins = 0%nat) /\
  (forall a data from wr plain,
     raddr s = Some a -> from <> a -> open b [] data = Some plain ->
     raddr (step rev b s (UdpRead (Ok (data, from)) wr)) = Some a).
Proof.
  split; [apply transitions_at_most_one|]. split.
  - intros a Hr. split.
    + apply run_keeps_peer, Hr.
    + apply (transitions_after_set rev b ins s a Hr).
  - intros a data from wr plain Hr _ _. apply step_keeps_peer, Hr.
Qed.

(** C6: in the outbound loop a packet read from the TUN device is sealed;
    with the peer address unset the sealed datagram is dropped and nothing
    is written to the UDP socket; with the peer address set the sealed
    datagram is written to the UDP socket for that address; the loop goes
    on in both cases. *)
Theorem outbound_sealed_to_peer (b : box) (pkt : bytes) (rand : result bytes)
    (wr : option error) (sealed : bytes) :
  seal b rand [] pkt = Ok sealed ->
  outbound b None (Ok pkt) rand wr = ([], Continue) /\
  (forall a,
     outbound b (Some a) (Ok pkt) rand wr
     = (conn_WriteToUDP sealed a :: log_if "udp write:" wr, Continue)).
Proof.
  intros Hs. unfold outbound. rewrite Hs. split; reflexivity.
Qed.

(** C9, as amended: a failed TUN read is logged and ends the outbound loop
    only; a failed TUN write is logged and the inbound loop goes on with the
    next datagram; neither ends the process. *)
Theorem tun_failures (rev : revision) (b : box) (s : state) :
  proc s = Running ->
  (forall e rand wr, outbound_running s = true ->
     step rev b s (TunRead (Err e) rand wr)
     = mkState (raddr s) false (inbound_running s) Running
               (trace s ++ [log_Println "tun read:" e])) /\
  (forall data from plain e, inbound_running s = true ->
     open b [] data = Some plain ->
     exists r learned,
       step rev b s (UdpRead (Ok (data, from)) (Some e))
       = mkState r (outbound_running s) true Running
           (trace s ++ learned
              ++ [ifce_Write plain; log_Println "tun write:" e])).
Proof.
  intros Hp. split.
  - intros e rand wr Ho. rewrite step_TunRead by assumption. reflexivity.
  - intros data from plain e Hi Hopen.
    rewrite step_UdpRead by assumption. unfold inbound. rewrite Hopen.
    destruct (raddr s) as [a|]; eexists; eexists; reflexivity.
Qed.

(** ** The primitives against their published test vectors *)

(** RFC 8439, section 2.5.2. *)
Example poly1305_rfc8439 : poly1305.Sum rfc8439_msg rfc8439_key = rfc8439_tag.
Proof. vm_compute. reflexivity. Qed.

(** "Cryptography in NaCl", section 8: the sub-key of the XSalsa20 example. *)
Example hsalsa20_nacl : fst (secretbox.setup nacl_nonce nacl_key) = nacl_subkey.
Proof. vm_compute. reflexivity. Qed.

(** [TestSecretBox] of the Go package: key of ones, nonce of twos, 64
    threes. *)
Example secretbox_go_test :
  secretbox.Seal [] (repeat x03 64) nonce2 key1 = go_test_box.
Proof. vm_compute. reflexivity. Qed.

Example secretbox_go_test_open :
  secretbox.Open [] go_test_box nonce2 key1 = Some (repeat x03 64).
Proof. vm_compute. reflexivity. Qed.

(** ** The claims at sample values *)

Lemma open_seal_roundtrip_witness :
  enable box1 = true /\ length (key box1) = 32%nat /\
  length nonce2 = 24%nat /\
  exists d, seal box1 (Ok nonce2) [] [x45; x00; x00; x1c] = Ok d /\
            open box1 [] d = Some [x45; x00; x00; x1c].
Proof.
  repeat (split; [reflexivity|]).
  apply (open_seal_roundtrip box1 nonce2 [x45; x00; x00; x1c] [] []);
    reflexivity.
Defined.

Lemma open_length_boundary_witness :
  enable box1 = true /\
  open box1 [] (repeat x00 23) = None /\
  open box1 [] (repeat x00 39) = None /\
  open box1 [] (nonce2 ++ secretbox.Seal [] [] nonce2 (key box1)) = Some [].
Proof.
  split; [reflexivity|].
  destruct (open_length_boundary box1 [] eq_refl) as [H24 [H39 H40]].
  split; [apply H24; vm_compute; lia|].
  split; [apply H39; vm_compute; lia|].
  apply (H40 nonce2 eq_refl).
Defined.

Lemma seal_wire_format_witness :
  enable box1 = true /\ length nonce2 = 24%nat /\
  exists d,
    seal box1 (Ok nonce2) [] [] = Ok d /\
    d = nonce2 ++ Poly1305_tag (XSalsa20 [] nonce2 (key box1)) nonce2 (key box1)
               ++ XSalsa20 [] nonce2 (key box1) /\
    length (Poly1305_tag (XSalsa20 [] nonce2 (key box1)) nonce2 (key box1))
      = 16%nat /\
    length (XSalsa20 [] nonce2 (key box1)) = 0%nat /\
    length d = 40%nat /\ (40 <= length d)%nat.
Proof.
  split; [reflexivity|]. split; [reflexivity|].
  apply (seal_wire_format box1 nonce2 [] []); reflexivity.
Defined.

(** C3 as the specification words it fails on a one-byte plaintext: the 16
    bytes after the nonce are the tag, not the last 16. *)
Lemma seal_not_ciphertext_then_tag :
  seal box0 (Ok (repeat x00 24)) [] [x00]
  <> Ok (wire_format_spec (repeat x00 24) (key box0) [x00]).
Proof.
  vm_compute. intros H. discriminate H.
Qed.

Lemma disabled_is_identity_witness :
  enable zero_box = false /\
  seal zero_box (Err "EOF") [] [x45; x00] = Ok [x45; x00] /\
  open zero_box [] [x45] = Some [x45] /\
  open zero_box [] [] = Some [].
Proof.
  split; [reflexivity|].
  destruct (disabled_is_identity zero_box eq_refl) as [_ [Hs [_ [Ho Hnil]]]].
  split; [apply Hs|]. split; [apply Ho | exact Hnil].
Defined.

Lemma open_plaintext_length_witness :
  enable box1 = true /\
  open box1 [] go_sealed = Some (repeat x03 64) /\
  (40 <= length go_sealed)%nat /\
  length (repeat x03 64) = (length go_sealed - 40)%nat.
Proof.
  split; [reflexivity|].
  assert (Ho : open box1 [] go_sealed = Some (repeat x03 64))
    by (vm_compute; reflexivity).
  split; [exact Ho|].
  exact (open_plaintext_length box1 [] go_sealed (repeat x03 64) eq_refl Ho).
Defined.

(** C4 as stated fails: a forged datagram, which [open] rejects, sets the
    peer address of a process started without [-peer]. *)
Lemma rejected_datagram_sets_peer :
  main_start "" "AAAAAAAAAAAAAAAAAAAAAAAAAAAAAAAAAAAAAAAAAAA=" env0
    = Ok (box0, fresh) /\
  raddr fresh = None /\
  open box0 [] (repeat x00 41) = None /\
  step without_keepalive box0 fresh (UdpRead (Ok (repeat x00 41, addrA)) None)
    = mkState (Some addrA) true true Running [Peer_learned addrA].
Proof.
  vm_compute. repeat split.
Qed.

Lemma peer_learned_on_first_datagram_witness :
  proc fresh = Running /\ inbound_running fresh = true /\
  raddr fresh = None /\
  raddr (step without_keepalive box0 fresh
           (UdpRead (Ok (repeat x00 10, addrA)) None)) = Some addrA.
Proof.
  repeat (split; [reflexivity|]).
  apply (peer_learned_on_first_datagram without_keepalive box0 fresh
           eq_refl eq_refl eq_refl).
Defined.

Lemma peer_set_at_most_once_witness :
  raddr (mkState (Some addrB) true true Running []) = Some addrB /\
  raddr (run with_keepalive zero_box (mkState (Some addrB) true true Running [])
           [UdpRead (Ok ([x45], addrA)) None; Tick x07 (Err "EOF")])
  = Some addrB.
Proof.
  split; [reflexivity|].
  apply (peer_set_at_most_once with_keepalive zero_box
           (mkState (Some addrB) true true Running [])
           [UdpRead (Ok ([x45], addrA)) None; Tick x07 (Err "EOF")]).
  reflexivity.
Defined.

Lemma outbound_sealed_to_peer_witness :
  seal zero_box (Err "EOF") [] [x45; x00] = Ok [x45; x00] /\
  outbound zero_box None (Ok [x45; x00]) (Err "EOF") None = ([], Continue) /\
  outbound zero_box (Some addrB) (Ok [x45; x00]) (Err "EOF") None
  = ([conn_WriteToUDP [x45; x00] addrB], Continue).
Proof.
  split; [reflexivity|].
  destruct (outbound_sealed_to_peer zero_box [x45; x00] (Err "EOF") None
              [x45; x00] eq_refl) as [Hn Hs].
  split; [exact Hn | apply Hs].
Defined.

(** C9 as stated fails: after a failed TUN write the inbound loop is still
    running. *)
Lemma tun_write_failure_keeps_inbound_loop :
  step without_keepalive zero_box fresh
       (UdpRead (Ok ([x45], addrA)) (Some "input/output error"%string))
  = mkState (Some addrA) true true Running
      [Peer_learned addrA; ifce_Write [x45];
       log_Println "tun write:" "input/output error"] /\
  inbound_running
    (step without_keepalive zero_box fresh
       (UdpRead (Ok ([x45], addrA)) (Some "input/output error"%string))) <> false.
Proof.
  vm_compute. split; [reflexivity | discriminate].
Qed.

Lemma tun_failures_witness :
  proc fresh = Running /\ outbound_running fresh = true /\
  step without_keepalive zero_box fresh
       (TunRead (Err "file already closed") (Err "EOF") None)
  = mkState None false true Running
      [log_Println "tun read:" "file already closed"].
Proof.
  split; [reflexivity|]. split; [reflexivity|].
  destruct (tun_failures without_keepalive zero_box fresh eq_refl) as [Hr _].
  apply (Hr "file already closed"%string (Err "EOF") None eq_refl).
Defined.

(** * Further properties of the program *)

(** ** What one step adds to the trace *)

Lemma udp_writes_app (t u : list effect) :
  udp_writes (t ++ u) = udp_writes t ++ udp_writes u.
Proof.
  induction t as [|e t IH]; [reflexivity|].
  destruct e; cbn [app udp_writes]; rewrite IH; reflexivity.
Qed.

Lemma tun_writes_app (t u : list effect) :
  tun_writes (t ++ u) = tun_writes t ++ tun_writes u.
Proof.
  induction t as [|e t IH]; [reflexivity|].
  destruct e; cbn [app tun_writes]; rewrite IH; reflexivity.
Qed.

Lemma udp_writes_outbound (b : box) (r : option UDPAddr)
    (rd rand : result bytes) (wr : option error) :
  udp_writes (fst (outbound b r rd rand wr))
  = match rd, r with
    | Ok pkt, Some a =>
        match seal b rand [] pkt with
        | Ok sealed => [(sealed, a)]
        | Err _ => []
        end
    | _, _ => []
    end.
Proof.
  unfold outbound. destruct rd as [pkt | e]; [|destruct r; reflexivity].
  destruct (seal b rand [] pkt) as [sealed | e], r as [a|]; try reflexivity.
  destruct wr; reflexivity.
Qed.

Lemma tun_writes_outbound (b : box) (r : option UDPAddr)
    (rd rand : result bytes) (wr : option error) :
  tun_writes (fst (outbound b r rd rand wr)) = [].
Proof.
  unfold outbound. destruct rd as [pkt | e]; [|reflexivity].
  destruct (seal b rand [] pkt) as [sealed | e], r as [a|]; try reflexivity.
  destruct wr; reflexivity.
Qed.

Lemma udp_writes_inbound (b : box) (r : option UDPAddr)
    (rd : result (bytes * UDPAddr)) (wr : option error) :
  udp_writes (snd (fst (inbound b r rd wr))) = [].
Proof.
  unfold inbound. destruct rd as [[data from] | e]; [|reflexivity].
  destruct r as [a|], (open b [] data) as [plain|], wr; reflexivity.
Qed.

Lemma tun_writes_inbound (b : box) (r : option UDPAddr)
    (rd : result (bytes * UDPAddr)) (wr : option error) :
  tun_writes (snd (fst (inbound b r rd wr)))
  = match rd with
    | Ok (data, _) =>
        match open b [] data with
        | Some plain => [plain]
        | None => []
        end
    | Err _ => []
    end.
Proof.
  unfold inbound. destruct rd as [[data from] | e]; [|reflexivity].
  destruct r as [a|], (open b [] data) as [plain|], wr; reflexivity.
Qed.

Lemma udp_writes_keepalive (b : box) (r : option UDPAddr) (x : byte)
    (rand : result bytes) :
  udp_writes (keepalive b r x rand)
  = match r with
    | Some a =>
        match seal b rand [] [x] with
        | Ok msg => [(msg, a)]
        | Err _ => []
        end
    | None => []
    end.
Proof.
  unfold keepalive. destruct r as [a|]; [|reflexivity].
  destruct (seal b rand [] [x]); reflexivity.
Qed.

Lemma tun_writes_keepalive (b : box) (r : option UDPAddr) (x : byte)
    (rand : result bytes) :
  tun_writes (keepalive b r x rand) = [].
Proof.
  unfold keepalive. destruct r as [a|]; [|reflexivity].
  destruct (seal b rand [] [x]); reflexivity.
Qed.

(** The five ways a step can go. *)
Lemma step_cases (rev : revision) (b : box) (s : state) (i : input) :
  step rev b s i = s \/
  (exists rd rand wr,
     i = TunRead rd rand wr /\ proc s = Running /\
     outbound_running s = true /\
     step rev b s i
     = mkState (raddr s) (running (snd (outbound b (raddr s) rd rand wr)))
               (inbound_running s) Running
               (trace s ++ fst (outbound b (raddr s) rd rand wr))) \/
  (exists rd wr,
     i = UdpRead rd wr /\ proc s = Running /\ inbound_running s = true /\
     step rev b s i
     = mkState (fst (fst (inbound b (raddr s) rd wr))) (outbound_running s)
               (running (snd (inbound b (raddr s) rd wr))) Running
               (trace s ++ snd (fst (inbound b (raddr s) rd wr)))) \/
  (exists x rand,
     i = Tick x rand /\ proc s = Running /\ rev = with_keepalive /\
     step rev b s i
     = mkState (raddr s) (outbound_running s) (inbound_running s) Running
               (trace s ++ keepalive b (raddr s) x rand)) \/
  (i = MainReturns /\ proc s = Running /\
   step rev b s i
   = mkState (raddr s) (outbound_running s) (inbound_running s) (Exited 0)
             (trace s)).
Proof.
  destruct (proc s) as [|code] eqn:Hp.
  2:{ left. unfold step. rewrite Hp. reflexivity. }
  destruct i as [rd rand wr | rd wr | x rand | | ].
  - destruct (outbound_running s) eqn:Ho.
    + right; left. exists rd, rand, wr.
      repeat split. apply step_TunRead; assumption.
    + left. unfold step. rewrite Hp, Ho. reflexivity.
  - destruct (inbound_running s) eqn:Hi.
    + right; right; left. exists rd, wr.
      repeat split. apply step_UdpRead; assumption.
    + left. unfold step. rewrite Hp, Hi. reflexivity.
  - destruct rev.
    + right; right; right; left. exists x, rand.
      repeat split. unfold step. rewrite Hp. reflexivity.
    + left. unfold step. rewrite Hp. reflexivity.
  - left. unfold step. rewrite Hp. reflexivity.
  - right; right; right; right. repeat split.
    unfold step. rewrite Hp. reflexivity.
Qed.

Lemma run_cons (rev : revision) (b : box) (s : state) (i : input)
    (ins : list input) :
  run rev b s (i :: ins) = run rev b (step rev b s i) ins.
Proof. reflexivity. Qed.

Lemma run_app (rev : revision) (b : box) (s : state) (ins ins' : list input) :
  run rev b s (ins ++ ins') = run rev b (run rev b s ins) ins'.
Proof. apply fold_left_app. Qed.

(** ** Invariants of runs *)

Lemma run_exited (rev : revision) (b : box) (ins : list input) :
  forall s code, proc s = Exited code -> run rev b s ins = s.
Proof.
  induction ins as [|i ins IH]; intros s code Hp; [reflexivity|].
  rewrite run_cons.
  assert (Hs : step rev b s i = s) by (unfold step; rewrite Hp; reflexivity).
  rewrite Hs. apply (IH s code Hp).
Qed.

Lemma step_inbound_stopped (rev : revision) (b : box) (s : state) (i : input) :
  inbound_running s = false -> inbound_running (step rev b s i) = false.
Proof.
  intros Hi.
  destruct (step_cases rev b s i)
    as [E | [(rd & rand & wr & _ & _ & _ & E) | [(rd & wr & _ & _ & Hi' & _)
       | [(x & rand & _ & _ & _ & E) | (_ & _ & E)]]]];
    try (rewrite E; exact Hi).
  congruence.
Qed.

Lemma step_outbound_stopped (rev : revision) (b : box) (s : state)
    (i : input) :
  outbound_running s = false -> outbound_running (step rev b s i) = false.
Proof.
  intros Ho.
  destruct (step_cases rev b s i)
    as [E | [(rd & rand & wr & _ & _ & Ho' & _) | [(rd & wr & _ & _ & _ & E)
       | [(x & rand & _ & _ & _ & E) | (_ & _ & E)]]]];
    try (rewrite E; exact Ho).
  congruence.
Qed.

Lemma In_datagrams_cons (data : bytes) (i : input) (ins : list input) :
  In data (datagrams ins) -> In data (datagrams (i :: ins)).
Proof.
  intros H. destruct i as [rd rand wr | [[d from] | e] wr | x rand | | ];
    cbn [datagrams]; try exact H.
  right. exact H.
Qed.

Lemma step_tun_writes (rev : revision) (b : box) (s : state) (i : input)
    (p : bytes) :
  In p (tun_writes (trace (step rev b s i))) ->
  In p (tun_writes (trace s)) \/
  exists data from wr,
    i = UdpRead (Ok (data, from)) wr /\ open b [] data = Some p.
Proof.
  destruct (step_cases rev b s i)
    as [E | [(rd & rand & wr & _ & _ & _ & E) | [(rd & wr & Ei & _ & _ & E)
       | [(x & rand & _ & _ & _ & E) | (_ & _ & E)]]]];
    rewrite E; cbn [trace]; try (intros H; left; exact H).
  - rewrite tun_writes_app, tun_writes_outbound, app_nil_r. auto.
  - rewrite tun_writes_app, tun_writes_inbound. intros H.
    apply in_app_or in H. destruct H as [H | H]; [left; exact H|].
    destruct rd as [[data from] | e]; [|destruct H].
    destruct (open b [] data) as [plain|] eqn:Ho; [|destruct H].
    destruct H as [H | []]. subst plain.
    right. exists data, from, wr. split; [exact Ei | exact Ho].
  - rewrite tun_writes_app, tun_writes_keepalive, app_nil_r. auto.
Qed.

Lemma step_sends_to_peer (rev : revision) (b : box) (s : state) (i : input) :
  (forall d a, In (d, a) (udp_writes (trace s)) -> raddr s = Some a) ->
  forall d a, In (d, a) (udp_writes (trace (step rev b s i))) ->
              raddr (step rev b s i) = Some a.
Proof.
  intros Inv d a.
  destruct (step_cases rev b s i)
    as [E | [(rd & rand & wr & _ & _ & _ & E) | [(rd & wr & _ & _ & _ & E)
       | [(x & rand & _ & _ & _ & E) | (_ & _ & E)]]]];
    rewrite E; cbn [trace raddr]; try (apply Inv).
  - rewrite udp_writes_app, udp_writes_outbound. intros H.
    apply in_app_or in H. destruct H as [H | H]; [apply (Inv d a H)|].
    destruct rd as [pkt | e]; [|destruct H].
    destruct (raddr s) as [a0|]; [|destruct H].
    destruct (seal b rand [] pkt); [|destruct H].
    destruct H as [H | []]. congruence.
  - rewrite udp_writes_app, udp_writes_inbound, app_nil_r. intros H.
    rewrite inbound_raddr, (Inv d a H). reflexivity.
  - rewrite udp_writes_app, udp_writes_keepalive. intros H.
    apply in_app_or in H. destruct H as [H | H]; [apply (Inv d a H)|].
    destruct (raddr s) as [a0|]; [|destruct H].
    destruct (seal b rand [] [x]); [|destruct H].
    destruct H as [H | []]. congruence.
Qed.

Lemma run_sends_to_peer (rev : revision) (b : box) (ins : list input) :
  forall s,
    (forall d a, In (d, a) (udp_writes (trace s)) -> raddr s = Some a) ->
    forall d a, In (d, a) (udp_writes (trace (run rev b s ins))) ->
                raddr (run rev b s ins) = Some a.
Proof.
  induction ins as [|i ins IH]; intros s Inv; [exact Inv|].
  rewrite run_cons. apply IH. apply step_sends_to_peer, Inv.
Qed.

Lemma deaf_stays_unset (rev : revision) (b : box) (ins : list input) :
  forall s, inbound_running s = false -> raddr s = None ->
            raddr (run rev b s ins) = None.
Proof.
  induction ins as [|i ins IH]; intros s Hi Hr; [exact Hr|].
  rewrite run_cons. apply IH.
  - apply step_inbound_stopped, Hi.
  - rewrite step_raddr, Hr, Hi. destruct (proc s); reflexivity.
Qed.

(** Every packet written to the TUN device during a run is the plaintext
    that [open] returned for one of the datagrams received during it. *)
Theorem tun_writes_come_from_open (rev : revision) (b : box)
    (ins : list input) :
  forall s p,
    In p (tun_writes (trace (run rev b s ins))) ->
    In p (tun_writes (trace s)) \/
    exists data, In data (datagrams ins) /\ open b [] data = Some p.
Proof.
  induction ins as [|i ins IH]; intros s p H; [left; exact H|].
  rewrite run_cons in H. apply IH in H.
  destruct H as [H | (data & Hin & Ho)].
  - apply step_tun_writes in H.
    destruct H as [H | (data & from & wr & -> & Ho)]; [left; exact H|].
    right. exists data. split; [left; reflexivity | exact Ho].
  - right. exists data. split; [apply In_datagrams_cons, Hin | exact Ho].
Qed.

(** Starting with nothing sent, every datagram a run writes to the UDP
    socket is addressed to the peer address the run ends with: there is
    never a write while the address is unset, and never two destinations. *)
Theorem udp_writes_go_to_the_peer (rev : revision) (b : box) (s : state)
    (ins : list input) (d : bytes) (a : UDPAddr) :
  udp_writes (trace s) = [] ->
  In (d, a) (udp_writes (trace (run rev b s ins))) ->
  raddr (run rev b s ins) = Some a.
Proof.
  intros Hs. apply run_sends_to_peer. intros d0 a0 H.
  rewrite Hs in H. destruct H.
Qed.

(** Started without a peer, the address a run ends with is the sender of
    the first datagram delivered while the inbound loop and the process are
    still running, whatever that datagram holds, also when the termination
    signal was delivered before it; if a failed UDP read or the return of
    [main] comes first, no peer is ever learned. *)
Theorem learned_peer_is_first_sender (rev : revision) (b : box)
    (ins : list input) :
  forall s, proc s = Running -> inbound_running s = true -> raddr s = None ->
            raddr (run rev b s ins) = first_sender ins.
Proof.
  induction ins as [|i ins IH]; intros s Hp Hi Hr; [exact Hr|].
  rewrite run_cons.
  destruct i as [rd rand wr | [[data from] | e] wr | x rand | | ];
    cbn [first_sender].
  - destruct (outbound_running s) eqn:Ho.
    + rewrite step_TunRead by assumption.
      apply IH; [reflexivity | exact Hi | exact Hr].
    + assert (E : step rev b s (TunRead rd rand wr) = s)
        by (unfold step; rewrite Hp, Ho; reflexivity).
      rewrite E. apply IH; assumption.
  - apply run_keeps_peer. rewrite step_raddr, Hr, Hp, Hi. reflexivity.
  - apply deaf_stays_unset.
    + rewrite step_UdpRead by assumption. reflexivity.
    + rewrite step_raddr, Hr, Hp, Hi. reflexivity.
  - assert (E : raddr (step rev b s (Tick x rand)) = None
                /\ proc (step rev b s (Tick x rand)) = Running
                /\ inbound_running (step rev b s (Tick x rand)) = true).
    { unfold step. rewrite Hp. destruct rev; cbn; auto. }
    destruct E as (E1 & E2 & E3). apply IH; assumption.
  - assert (E : step rev b s Signal = s)
      by (unfold step; rewrite Hp; reflexivity).
    rewrite E. apply IH; assumption.
  - rewrite (run_exited rev b ins _ 0).
    + rewrite step_raddr, Hr, Hp, Hi. reflexivity.
    + unfold step. rewrite Hp. reflexivity.
Qed.

(** In the revision without keepalive, once the outbound loop has returned
    (after a failed TUN read) nothing is written to the UDP socket any more,
    although the process and the inbound loop keep running. *)
Theorem no_send_after_outbound_stops (b : box) (ins : list input) :
  forall s, outbound_running s = false ->
            udp_writes (trace (run without_keepalive b s ins))
            = udp_writes (trace s).
Proof.
  induction ins as [|i ins IH]; intros s Ho; [reflexivity|].
  rewrite run_cons, IH by (apply step_outbound_stopped, Ho).
  destruct (step_cases without_keepalive b s i)
    as [E | [(rd & rand & wr & _ & _ & Ho' & _) | [(rd & wr & _ & _ & _ & E)
       | [(x & rand & _ & _ & Hrev & _) | (_ & _ & E)]]]];
    try congruence; rewrite E; cbn [trace]; try reflexivity.
  rewrite udp_writes_app, udp_writes_inbound, app_nil_r. reflexivity.
Qed.

(** If the inbound loop returns (after a failed UDP read) before a peer was
    learned, the address stays unset for ever and the process, in either
    revision, never writes to the UDP socket again. *)
Theorem no_send_after_inbound_stops_unset (rev : revision) (b : box)
    (ins : list input) :
  forall s, inbound_running s = false -> raddr s = None ->
            raddr (run rev b s ins) = None /\
            udp_writes (trace (run rev b s ins)) = udp_writes (trace s).
Proof.
  induction ins as [|i ins IH]; intros s Hi Hr; [split; [exact Hr | reflexivity]|].
  rewrite run_cons.
  assert (Hr' : raddr (step rev b s i) = None)
    by (rewrite step_raddr, Hr, Hi; destruct (proc s); reflexivity).
  destruct (IH _ (step_inbound_stopped rev b s i Hi) Hr') as [IH1 IH2].
  split; [exact IH1|]. rewrite IH2.
  destruct (step_cases rev b s i)
    as [E | [(rd & rand & wr & _ & _ & _ & E) | [(rd & wr & _ & _ & Hi' & _)
       | [(x & rand & _ & _ & _ & E) | (_ & _ & E)]]]];
    try congruence; rewrite E; cbn [trace]; try reflexivity.
  - rewrite udp_writes_app, udp_writes_outbound, Hr.
    destruct rd; apply app_nil_r.
  - rewrite udp_writes_app, udp_writes_keepalive, Hr. apply app_nil_r.
Qed.

(** A loop ends only on a failed read: if the outbound loop is running
    before a run and not after it, the run contains a failed TUN read; if
    the inbound loop is, a failed UDP read.  Failed seals, failed writes and
    rejected datagrams never end a loop. *)
Theorem loops_end_only_on_read_errors (rev : revision) (b : box)
    (ins : list input) :
  forall s,
    (outbound_running s = true ->
     outbound_running (run rev b s ins) = false ->
     exists e rand wr, In (TunRead (Err e) rand wr) ins) /\
    (inbound_running s = true ->
     inbound_running (run rev b s ins) = false ->
     exists e wr, In (UdpRead (Err e) wr) ins).
Proof.
  induction ins as [|i ins IH]; intros s.
  - split; intros H1 H2; cbn in H2; congruence.
  - rewrite run_cons. destruct (IH (step rev b s i)) as [IHo IHi].
    split; intros H1 H2.
    + destruct (outbound_running (step rev b s i)) eqn:Ho.
      * destruct (IHo eq_refl H2) as (e & rand & wr & Hin).
        exists e, rand, wr. right. exact Hin.
      * destruct (step_cases rev b s i)
          as [E | [(rd & rand & wr & Ei & _ & _ & E) | [(rd & wr & _ & _ & _ & E)
             | [(x & rand & _ & _ & _ & E) | (_ & _ & E)]]]];
          rewrite E in Ho; cbn [outbound_running] in Ho; try congruence.
        destruct rd as [pkt | e].
        { unfold outbound in Ho.
          destruct (seal b rand [] pkt), (raddr s); discriminate Ho. }
        exists e, rand, wr. left. exact Ei.
    + destruct (inbound_running (step rev b s i)) eqn:Hi.
      * destruct (IHi eq_refl H2) as (e & wr & Hin).
        exists e, wr. right. exact Hin.
      * destruct (step_cases rev b s i)
          as [E | [(rd & rand & wr & _ & _ & _ & E) | [(rd & wr & Ei & _ & _ & E)
             | [(x & rand & _ & _ & _ & E) | (_ & _ & E)]]]];
          rewrite E in Hi; cbn [inbound_running] in Hi; try congruence.
        rewrite inbound_control in Hi.
        destruct rd as [[data from] | e]; [discriminate Hi|].
        exists e, wr. left. exact Ei.
Qed.

(** ** More about the envelope *)

Lemma bytes_eqb_iff (a b : bytes) : bytes_eqb a b = true <-> a = b.
Proof.
  split; [apply bytes_eqb_eq | intros ->; apply bytes_eqb_refl].
Qed.

Lemma seal_then_open (b : box) (rand : result bytes) (pkt sealed : bytes) :
  seal b rand [] pkt = Ok sealed ->
  (forall nonce, rand = Ok nonce -> length nonce = 24%nat) ->
  open b [] sealed = Some pkt.
Proof.
  intros Hs Hn. destruct (enable b) eqn:He.
  - destruct rand as [nonce | e].
    + rewrite seal_enabled in Hs by exact He.
      injection Hs as E.
      rewrite <- E. apply open_seal; [exact He | apply Hn; reflexivity].
    + unfold seal in Hs. rewrite He in Hs. discriminate Hs.
  - rewrite seal_disabled in Hs by exact He.
    injection Hs as E.
    rewrite <- E. apply (open_disabled b [] pkt He).
Qed.

(** With encryption enabled [open] accepts a datagram exactly when it is at
    least 40 bytes long and its bytes 24..39 are the Poly1305 tag of the rest
    under the nonce in its first 24 bytes; the plaintext is then the
    XSalsa20 decryption of the bytes from 40 on. *)
Theorem open_accepts_iff (b : box) (dst d p : bytes) :
  enable b = true ->
  (open b dst d = Some p <->
   (40 <= length d)%nat /\
   Poly1305_tag (skipn 40 d) (firstn 24 d) (key b) = firstn 16 (skipn 24 d) /\
   p = XSalsa20 (skipn 40 d) (firstn 24 d) (key b)).
Proof.
  intros He. rewrite open_enabled by exact He.
  destruct (Nat.ltb_spec (length d) 24) as [Hlt | Hge].
  { split; [discriminate | intros (H & _ & _); lia]. }
  rewrite Open_layout, length_skipn, skipn_skipn. change (16 + 24)%nat with 40%nat.
  destruct (Nat.ltb_spec (length d - 24) 16) as [Hlt | Hge'].
  { split; [discriminate | intros (H & _ & _); lia]. }
  destruct (bytes_eqb _ _) eqn:Ht.
  - apply bytes_eqb_eq in Ht. rewrite app_nil_l. split.
    + intros H. repeat split; [lia | exact Ht | congruence].
    + intros (_ & _ & ->). reflexivity.
  - split; [discriminate|]. intros (_ & Ht' & _).
    apply bytes_eqb_iff in Ht'. congruence.
Qed.

(** With encryption enabled, a datagram whose 16-byte tag field is anything
    but the Poly1305 tag of its ciphertext is rejected: changing the tag of
    a sealed datagram is always detected. *)
Theorem forged_tag_rejected (b : box) (dst nonce t c : bytes) :
  enable b = true -> length nonce = 24%nat -> length t = 16%nat ->
  t <> Poly1305_tag c nonce (key b) ->
  open b dst (nonce ++ t ++ c) = None.
Proof.
  intros He Hn Ht Hne. rewrite open_nonce_box by assumption.
  rewrite Open_layout.
  destruct (Nat.ltb_spec (length (t ++ c)) 16) as [Hlt | _]; [reflexivity|].
  rewrite firstn_app, skipn_app, Ht, Nat.sub_diag.
  rewrite firstn_all2, skipn_all2 by lia.
  rewrite firstn_O, skipn_O, app_nil_r, app_nil_l.
  destruct (bytes_eqb _ _) eqn:E; [|reflexivity].
  apply bytes_eqb_eq in E. congruence.
Qed.

(** With encryption enabled both functions start again at [dst[:0]]: what
    [dst] holds is overwritten, not kept, unlike in the disabled mode,
    where the result is [dst] followed by the input. *)
Theorem enabled_overwrites_dst (b : box) (rand : result bytes)
    (dst data : bytes) :
  enable b = true ->
  seal b rand dst data = seal b rand [] data /\
  open b dst data = open b [] data.
Proof.
  intros He. unfold seal, open. rewrite He. cbn [negb].
  rewrite !firstn_O. split; reflexivity.
Qed.

(** [seal] fails exactly when encryption is enabled and the random source
    fails, and then with the error of the random source. *)
Theorem seal_fails_iff (b : box) (rand : result bytes) (dst msg : bytes)
    (e : error) :
  seal b rand dst msg = Err e <-> enable b = true /\ rand = Err e.
Proof.
  unfold seal. destruct (enable b); cbn [negb].
  - destruct rand as [nonce | e0].
    + split; [discriminate | intros [_ H]; discriminate H].
    + split; [intros H; split; congruence | intros [_ H]; congruence].
  - split; [discriminate | intros [H _]; discriminate H].
Qed.

(** With encryption enabled a sealed datagram starts with the nonce that was
    drawn, so two seals under different nonces never give the same
    datagram, whatever the plaintexts. *)
Theorem distinct_nonces_distinct_datagrams (b : box)
    (n1 n2 dst1 dst2 m1 m2 d1 d2 : bytes) :
  enable b = true -> length n1 = 24%nat -> length n2 = 24%nat ->
  n1 <> n2 ->
  seal b (Ok n1) dst1 m1 = Ok d1 -> seal b (Ok n2) dst2 m2 = Ok d2 ->
  firstn 24 d1 = n1 /\ firstn 24 d2 = n2 /\ d1 <> d2.
Proof.
  intros He H1 H2 Hne S1 S2.
  rewrite seal_enabled in S1, S2 by exact He.
  injection S1 as E1. injection S2 as E2.
  symmetry in E1, E2.
  assert (F : forall n m, length n = 24%nat ->
                firstn 24 (wire_format_code n (key b) m) = n).
  { intros n m Hn. unfold wire_format_code.
    rewrite firstn_app, Hn, Nat.sub_diag, firstn_O, app_nil_r.
    apply firstn_all2. lia. }
  assert (F1 : firstn 24 d1 = n1) by (rewrite E1; apply F, H1).
  assert (F2 : firstn 24 d2 = n2) by (rewrite E2; apply F, H2).
  repeat split; [exact F1 | exact F2 | congruence].
Qed.

(** ** End to end *)

(** What one side's outbound loop writes to the UDP socket for a packet, the
    other side's inbound loop, holding the same [box], writes to its TUN
    device as that same packet, in either mode. *)
Theorem tunnel_delivers_packet (b : box) (pkt : bytes) (rand : result bytes)
    (wr_udp wr_tun : option error) (peer from : UDPAddr)
    (r : option UDPAddr) (d : bytes) :
  (forall nonce, rand = Ok nonce -> length nonce = 24%nat) ->
  In (d, peer) (udp_writes (fst (outbound b (Some peer) (Ok pkt) rand wr_udp))) ->
  tun_writes (snd (fst (inbound b r (Ok (d, from)) wr_tun))) = [pkt].
Proof.
  intros Hn Hin. rewrite udp_writes_outbound in Hin.
  destruct (seal b rand [] pkt) as [sealed|e] eqn:Hs; [|destruct Hin].
  destruct Hin as [Hin | []].
  injection Hin as E. subst sealed.
  rewrite tun_writes_inbound, (seal_then_open b rand pkt d Hs Hn).
  reflexivity.
Qed.

(** The receiver does not tell a keepalive from data: the datagram a tick
    writes is opened like any other and its one random byte is written to
    the receiver's TUN device as a one-byte packet. *)
Theorem keepalive_reaches_tun (b : box) (x : byte) (rand : result bytes)
    (peer from : UDPAddr) (r : option UDPAddr) (wr : option error)
    (d : bytes) :
  (forall nonce, rand = Ok nonce -> length nonce = 24%nat) ->
  In (d, peer) (udp_writes (keepalive b (Some peer) x rand)) ->
  tun_writes (snd (fst (inbound b r (Ok (d, from)) wr))) = [[x]].
Proof.
  intros Hn Hin. rewrite udp_writes_keepalive in Hin.
  destruct (seal b rand [] [x]) as [sealed|e] eqn:Hs; [|destruct Hin].
  destruct Hin as [Hin | []].
  injection Hin as E. subst sealed.
  rewrite tun_writes_inbound, (seal_then_open b rand [x] d Hs Hn).
  reflexivity.
Qed.

(** ** Startup *)

(** When [main] gets as far as starting the goroutines, the key is 32 bytes
    long, encryption is enabled exactly when [-psk] was given, the peer
    address is set exactly when [-peer] was given, and both loops run on an
    empty trace. *)
Theorem main_start_state (peer pskB64 : string) (env : environment)
    (b : box) (s : state) :
  main_start peer pskB64 env = Ok (b, s) ->
  length (key b) = 32%nat /\
  (enable b = true <-> pskB64 <> ""%string) /\
  (raddr s = None <-> peer = ""%string) /\
  s = mkState (raddr s) true true Running [].
Proof.
  unfold main_start, main_raddr, main_box.
  destruct (water_New env); [discriminate|].
  destruct (ResolveUDPAddr_local env); [discriminate|].
  destruct (ListenUDP env); [discriminate|].
  destruct (String.eqb_spec peer "") as [Hpeer | Hpeer];
    [|destruct (ResolveUDPAddr_peer env) as [a|e]; [|discriminate]];
    (destruct (String.eqb_spec pskB64 "") as [Hpsk | Hpsk];
     [|destruct (DecodeString_psk env) as [raw|e]; [|discriminate];
       destruct (Nat.eqb_spec (length raw) 32) as [Hlen | Hlen];
       cbn [negb]; [|discriminate]]);
    intros H; injection H as <- <-; cbn [key enable raddr];
    repeat split; try congruence; try discriminate; try assumption;
    try (intros; exfalso; congruence).
Qed.

(** A [-psk] that does not decode to exactly 32 bytes is fatal: [main] never
    starts the goroutines. *)
Theorem main_start_bad_psk (peer pskB64 : string) (env : environment)
    (raw : bytes) :
  pskB64 <> ""%string -> DecodeString_psk env = Ok raw ->
  length raw <> 32%nat ->
  exists e, main_start peer pskB64 env = Err e.
Proof.
  intros Hpsk Hdec Hlen. unfold main_start, main_box.
  destruct (water_New env); [eexists; reflexivity|].
  destruct (ResolveUDPAddr_local env); [eexists; reflexivity|].
  destruct (ListenUDP env); [eexists; reflexivity|].
  destruct (main_raddr peer env); [|eexists; reflexivity].
  destruct (String.eqb_spec pskB64 ""); [contradiction|].
  rewrite Hdec.
  destruct (Nat.eqb_spec (length raw) 32); [contradiction|].
  eexists; reflexivity.
Qed.

(** ** The interface lister *)

Lemma append_literal_nonempty (c : ascii) (s t : string) :
  String.append (String c s) t <> EmptyString.
Proof. discriminate. Qed.

(** [classify] always names a type: its result is never the empty string,
    whatever the file system holds and whatever the name and driver are. *)
Theorem classify_never_empty (fs : sysfs) (name syslink real : string)
    (info : IfInfo) :
  classify fs name syslink real info <> EmptyString.
Proof.
  unfold classify.
  repeat match goal with
         | |- (if ?c then _ else _) <> _ => destruct c
         | |- (match ?c with Some _ => _ | None => _ end) <> _ => destruct c
         | |- (let _ := _ in _) <> _ => cbv zeta
         end;
    discriminate.
Qed.

(** A device with a [tun_flags] file and none of the stronger marks
    (bridge, bonding, team, vxlan directories, a VLAN entry) is classified
    from the flag bits alone, whatever its driver and name: TAP when bit 1
    is set, also when the TUN bit is set as well; TUN when only bit 0 is;
    "tun/tap" when neither is or the flags do not parse. *)
Theorem classify_tun_flags (fs : sysfs) (name syslink real : string)
    (info : IfInfo) :
  exists_ fs (Join fs syslink "bridge") = false ->
  exists_ fs (Join fs syslink "bonding") = false ->
  exists_ fs (Join fs syslink "team") = false ->
  exists_ fs (Join fs syslink "vxlan") = false ->
  exists_ fs (Join fs "/proc/net/vlan" name) = false ->
  exists_ fs (Join fs syslink "tun_flags") = true ->
  classify fs name syslink real info
  = match ParseUint fs (TrimSpace fs (readFirst fs (Join fs syslink "tun_flags")))
    with
    | Some v =>
        if Z.testbit v 1 then "tap (TAP virtual L2)"%string
        else if Z.testbit v 0 then "tun (TUN virtual L3)"%string
        else "tun/tap"%string
    | None => "tun/tap"%string
    end.
Proof.
  intros H1 H2 H3 H4 H5 H6. unfold classify.
  rewrite H1, H2, H3, H4, H5, H6. cbv zeta.
  destruct (ParseUint fs _) as [v|]; [|reflexivity].
  assert (Htap : (Z.land v IFF_TAP =? 0) = negb (Z.testbit v 1)).
  { change IFF_TAP with (2 ^ 1).
    destruct (Z.testbit v 1) eqn:Hb; cbn [negb].
    - apply Z.eqb_neq. intros H0.
      assert (Hbit : Z.testbit (Z.land v (2 ^ 1)) 1 = true)
        by (rewrite Z.land_spec, Hb, Z.pow2_bits_true by lia; reflexivity).
      rewrite H0 in Hbit. discriminate Hbit.
    - apply Z.eqb_eq. apply Z.bits_inj'. intros n Hn.
      rewrite Z.land_spec, Z.bits_0.
      destruct (Z.eq_dec n 1) as [-> | Hne].
      + rewrite Hb. reflexivity.
      + rewrite (Z.pow2_bits_false 1 n) by lia. apply andb_false_r. }
  assert (Htun : (Z.land v IFF_TUN =? 0) = negb (Z.testbit v 0)).
  { change IFF_TUN with (2 ^ 0).
    destruct (Z.testbit v 0) eqn:Hb; cbn [negb].
    - apply Z.eqb_neq. intros H0.
      assert (Hbit : Z.testbit (Z.land v (2 ^ 0)) 0 = true)
        by (rewrite Z.land_spec, Hb, Z.pow2_bits_true by lia; reflexivity).
      rewrite H0 in Hbit. discriminate Hbit.
    - apply Z.eqb_eq. apply Z.bits_inj'. intros n Hn.
      rewrite Z.land_spec, Z.bits_0.
      destruct (Z.eq_dec n 0) as [-> | Hne].
      + rewrite Hb. reflexivity.
      + rewrite (Z.pow2_bits_false 0 n) by lia. apply andb_false_r. }
  rewrite Htap, Htun, !negb_involutive. reflexivity.
Qed.

(** ** The further properties at sample values *)

Lemma tun_writes_come_from_open_witness :
  In [x45] (tun_writes (trace (run without_keepalive zero_box fresh
                                 [UdpRead (Ok ([x45], addrA)) None]))) /\
  (In [x45] (tun_writes (trace fresh)) \/
   exists data,
     In data (datagrams [UdpRead (Ok ([x45], addrA)) None]) /\
     open zero_box [] data = Some [x45]).
Proof.
  assert (H : In [x45] (tun_writes (trace (run without_keepalive zero_box fresh
                                 [UdpRead (Ok ([x45], addrA)) None]))))
    by (vm_compute; left; reflexivity).
  split; [exact H|].
  exact (tun_writes_come_from_open without_keepalive zero_box _ fresh [x45] H).
Defined.

Lemma udp_writes_go_to_the_peer_witness :
  udp_writes (trace fresh) = [] /\
  raddr (run with_keepalive zero_box fresh
           [UdpRead (Ok ([x45], addrA)) None; Tick x07 (Err "EOF")])
  = Some addrA.
Proof.
  split; [reflexivity|].
  apply (udp_writes_go_to_the_peer with_keepalive zero_box fresh
           [UdpRead (Ok ([x45], addrA)) None; Tick x07 (Err "EOF")]
           [x07] addrA eq_refl).
  vm_compute. left. reflexivity.
Defined.

Lemma learned_peer_is_first_sender_witness :
  proc fresh = Running /\ inbound_running fresh = true /\
  raddr fresh = None /\
  raddr (run without_keepalive box0 fresh
           [TunRead (Ok [x45]) (Err "EOF") None;
            Signal;
            UdpRead (Ok (repeat x00 10, addrA)) None;
            UdpRead (Ok (repeat x00 10, addrB)) None;
            MainReturns])
  = Some addrA.
Proof.
  repeat (split; [reflexivity|]).
  apply (learned_peer_is_first_sender without_keepalive box0
           [TunRead (Ok [x45]) (Err "EOF") None;
            Signal;
            UdpRead (Ok (repeat x00 10, addrA)) None;
            UdpRead (Ok (repeat x00 10, addrB)) None;
            MainReturns]
           fresh eq_refl eq_refl eq_refl).
Defined.

Lemma no_send_after_outbound_stops_witness :
  outbound_running (mkState (Some addrB) false true Running []) = false /\
  udp_writes (trace (run without_keepalive zero_box
                       (mkState (Some addrB) false true Running [])
                       [TunRead (Ok [x45]) (Err "EOF") None; Tick x07 (Err "EOF")]))
  = [].
Proof.
  split; [reflexivity|].
  apply (no_send_after_outbound_stops zero_box
           [TunRead (Ok [x45]) (Err "EOF") None; Tick x07 (Err "EOF")]
           (mkState (Some addrB) false true Running []) eq_refl).
Defined.

Lemma no_send_after_inbound_stops_unset_witness :
  inbound_running (mkState None true false Running []) = false /\
  raddr (mkState None true false Running []) = None /\
  raddr (run with_keepalive zero_box (mkState None true false Running [])
           [UdpRead (Ok ([x45], addrA)) None; TunRead (Ok [x45]) (Err "EOF") None])
  = None /\
  udp_writes (trace (run with_keepalive zero_box
                       (mkState None true false Running [])
                       [UdpRead (Ok ([x45], addrA)) None;
                        TunRead (Ok [x45]) (Err "EOF") None]))
  = [].
Proof.
  split; [reflexivity|]. split; [reflexivity|].
  apply (no_send_after_inbound_stops_unset with_keepalive zero_box
           [UdpRead (Ok ([x45], addrA)) None; TunRead (Ok [x45]) (Err "EOF") None]
           (mkState None true false Running []) eq_refl eq_refl).
Defined.

Lemma loops_end_only_on_read_errors_witness :
  outbound_running fresh = true /\
  outbound_running (run without_keepalive zero_box fresh
                      [TunRead (Err "closed") (Err "EOF") None]) = false /\
  exists e rand wr,
    In (TunRead (Err e) rand wr) [TunRead (Err "closed") (Err "EOF") None].
Proof.
  split; [reflexivity|]. split; [reflexivity|].
  destruct (loops_end_only_on_read_errors without_keepalive zero_box
              [TunRead (Err "closed") (Err "EOF") None] fresh) as [Ho _].
  apply Ho; reflexivity.
Defined.

Lemma open_accepts_iff_witness :
  enable box1 = true /\
  (open box1 [] go_sealed = Some (repeat x03 64) <->
   (40 <= length go_sealed)%nat /\
   Poly1305_tag (skipn 40 go_sealed) (firstn 24 go_sealed) (key box1)
   = firstn 16 (skipn 24 go_sealed) /\
   repeat x03 64 = XSalsa20 (skipn 40 go_sealed) (firstn 24 go_sealed) (key box1)).
Proof.
  split; [reflexivity|].
  apply (open_accepts_iff box1 [] go_sealed (repeat x03 64) eq_refl).
Defined.

Lemma forged_tag_rejected_witness :
  enable box1 = true /\ length nonce2 = 24%nat /\
  length (repeat x00 16) = 16%nat /\
  open box1 [] (nonce2 ++ repeat x00 16 ++ [x2a]) = None.
Proof.
  repeat (split; [reflexivity|]).
  apply (forged_tag_rejected box1 [] nonce2 (repeat x00 16) [x2a]);
    try reflexivity.
  vm_compute. discriminate.
Defined.

Lemma enabled_overwrites_dst_witness :
  enable box1 = true /\
  seal box1 (Ok nonce2) [xff; xff] [x45] = seal box1 (Ok nonce2) [] [x45] /\
  open box1 [xff; xff] go_sealed = open box1 [] go_sealed.
Proof.
  split; [reflexivity|].
  split.
  - apply (enabled_overwrites_dst box1 (Ok nonce2) [xff; xff] [x45] eq_refl).
  - apply (enabled_overwrites_dst box1 (Ok nonce2) [xff; xff] go_sealed eq_refl).
Defined.

Lemma distinct_nonces_distinct_datagrams_witness :
  enable box1 = true /\ nonce2 <> repeat x00 24 /\
  wire_format_code nonce2 (key box1) [x45]
  <> wire_format_code (repeat x00 24) (key box1) [x45].
Proof.
  split; [reflexivity|].
  assert (Hne : nonce2 <> repeat x00 24) by (vm_compute; discriminate).
  split; [exact Hne|].
  apply (distinct_nonces_distinct_datagrams box1 nonce2 (repeat x00 24)
           [] [] [x45] [x45] _ _ eq_refl eq_refl eq_refl Hne
           (seal_enabled box1 nonce2 [] [x45] eq_refl)
           (seal_enabled box1 (repeat x00 24) [] [x45] eq_refl)).
Defined.

Lemma tunnel_delivers_packet_witness :
  In (wire_format_code nonce2 key1 [x45; x00], addrB)
     (udp_writes (fst (outbound box1 (Some addrB) (Ok [x45; x00])
                         (Ok nonce2) None))) /\
  tun_writes (snd (fst (inbound box1 None
                          (Ok (wire_format_code nonce2 key1 [x45; x00], addrA))
                          None)))
  = [[x45; x00]].
Proof.
  assert (H : In (wire_format_code nonce2 key1 [x45; x00], addrB)
                (udp_writes (fst (outbound box1 (Some addrB) (Ok [x45; x00])
                                    (Ok nonce2) None))))
    by (vm_compute; left; reflexivity).
  split; [exact H|].
  apply (tunnel_delivers_packet box1 [x45; x00] (Ok nonce2) None None
           addrB addrA None _); [|exact H].
  intros nonce E. injection E as <-. reflexivity.
Defined.

Lemma keepalive_reaches_tun_witness :
  In ([x07], addrB) (udp_writes (keepalive zero_box (Some addrB) x07 (Err "EOF"))) /\
  tun_writes (snd (fst (inbound zero_box (Some addrA) (Ok ([x07], addrA)) None)))
  = [[x07]].
Proof.
  assert (H : In ([x07], addrB)
                (udp_writes (keepalive zero_box (Some addrB) x07 (Err "EOF"))))
    by (left; reflexivity).
  split; [exact H|].
  apply (keepalive_reaches_tun zero_box x07 (Err "EOF") addrB addrA
           (Some addrA) None [x07]); [|exact H].
  intros nonce E. discriminate E.
Defined.

Lemma main_start_state_witness :
  main_start "" "AAAAAAAAAAAAAAAAAAAAAAAAAAAAAAAAAAAAAAAAAAA=" env0
    = Ok (box0, fresh) /\
  length (key box0) = 32%nat.
Proof.
  assert (H : main_start "" "AAAAAAAAAAAAAAAAAAAAAAAAAAAAAAAAAAAAAAAAAAA=" env0
              = Ok (box0, fresh)) by reflexivity.
  split; [exact H|].
  apply (main_start_state _ _ _ _ _ H).
Defined.

Lemma main_start_bad_psk_witness :
  exists e,
    main_start "" "AAAA" (mkEnv None None None (Ok addrB) (Ok [x00; x00; x00]))
    = Err e.
Proof.
  apply (main_start_bad_psk "" "AAAA"
           (mkEnv None None None (Ok addrB) (Ok [x00; x00; x00]))
           [x00; x00; x00]).
  - discriminate.
  - reflexivity.
  - discriminate.
Defined.

Lemma classify_tun_flags_witness :
  classify fs_tun0 "tun0" "/sys/class/net/tun0"
           "/sys/devices/virtual/net/tun0" info0
  = "tun (TUN virtual L3)"%string.
Proof.
  rewrite (classify_tun_flags fs_tun0 "tun0" "/sys/class/net/tun0"
             "/sys/devices/virtual/net/tun0" info0
             eq_refl eq_refl eq_refl eq_refl eq_refl eq_refl).
  reflexivity.
Defined.

(** ** The "Peer learned" line *)

Lemma learned_in_inbound (b : box) (r : option UDPAddr)
    (rd : result (bytes * UDPAddr)) (wr : option error) (a : UDPAddr) :
  In (Peer_learned a) (snd (fst (inbound b r rd wr))) ->
  r = None /\ exists data, rd = Ok (data, a).
Proof.
  unfold inbound. destruct rd as [[data from] | e].
  - destruct r as [a0|], (open b [] data) as [plain|], wr as [e|];
      cbn [fst snd app log_if In]; intros H;
      repeat match type of H with
             | _ \/ _ => destruct H as [H | H]
             | False => destruct H
             | Peer_learned _ = Peer_learned _ => injection H as ->
             | _ = Peer_learned _ => discriminate H
             end;
      (split; [reflexivity | exists data; reflexivity]).
  - cbn [fst snd In]. intros [H | []]. discriminate H.
Qed.

Lemma learned_not_in_outbound (b : box) (r : option UDPAddr)
    (rd rand : result bytes) (wr : option error) (a : UDPAddr) :
  ~ In (Peer_learned a) (fst (outbound b r rd rand wr)).
Proof.
  unfold outbound. destruct rd as [pkt | e].
  - destruct (seal b rand [] pkt), r, wr; cbn [fst log_if In]; intros H;
      repeat match type of H with
             | _ \/ _ => destruct H as [H | H]
             | False => destruct H
             | _ = Peer_learned _ => discriminate H
             end.
  - cbn [fst In]. intros [H | []]. discriminate H.
Qed.

Lemma learned_not_in_keepalive (b : box) (r : option UDPAddr) (x : byte)
    (rand : result bytes) (a : UDPAddr) :
  ~ In (Peer_learned a) (keepalive b r x rand).
Proof.
  unfold keepalive. destruct r; [destruct (seal b rand [] [x])|];
    cbn [In]; intros H;
    repeat match type of H with
           | _ \/ _ => destruct H as [H | H]
           | False => destruct H
           | _ = Peer_learned _ => discriminate H
           end.
Qed.

Lemma step_learned_is_peer (rev : revision) (b : box) (s : state) (i : input) :
  (forall a, In (Peer_learned a) (trace s) -> raddr s = Some a) ->
  forall a, In (Peer_learned a) (trace (step rev b s i)) ->
            raddr (step rev b s i) = Some a.
Proof.
  intros Inv a.
  destruct (step_cases rev b s i)
    as [E | [(rd & rand & wr & _ & _ & _ & E) | [(rd & wr & _ & _ & _ & E)
       | [(x & rand & _ & _ & _ & E) | (_ & _ & E)]]]];
    rewrite E; cbn [trace raddr]; try (apply Inv); intros H;
    apply in_app_or in H; destruct H as [H | H]; try (apply (Inv a H)).
  - destruct (learned_not_in_outbound _ _ _ _ _ _ H).
  - rewrite inbound_raddr, (Inv a H). reflexivity.
  - apply learned_in_inbound in H. destruct H as [Hr [data ->]].
    rewrite inbound_raddr, Hr. reflexivity.
  - destruct (learned_not_in_keepalive _ _ _ _ _ H).
Qed.

(** Starting from an empty trace, a "Peer learned" line is logged only for
    the address the peer cell then holds for the rest of the run: the line
    never names an address the process does not send to. *)
Theorem peer_learned_line_names_the_peer (rev : revision) (b : box)
    (ins : list input) :
  forall s a,
    trace s = [] ->
    In (Peer_learned a) (trace (run rev b s ins)) ->
    raddr (run rev b s ins) = Some a.
Proof.
  assert (G : forall s,
             (forall a, In (Peer_learned a) (trace s) -> raddr s = Some a) ->
             forall a, In (Peer_learned a) (trace (run rev b s ins)) ->
                       raddr (run rev b s ins) = Some a).
  { induction ins as [|i ins IH]; intros s Inv; [exact Inv|].
    rewrite run_cons. apply IH. apply step_learned_is_peer, Inv. }
  intros s a Hs. apply G. intros a0 H. rewrite Hs in H. destruct H.
Qed.

Lemma peer_learned_line_names_the_peer_witness :
  trace fresh = [] /\
  raddr (run without_keepalive box0 fresh
           [UdpRead (Ok (repeat x00 10, addrA)) None;
            UdpRead (Ok (repeat x00 10, addrB)) None])
  = Some addrA.
Proof.
  split; [reflexivity|].
  apply (peer_learned_line_names_the_peer without_keepalive box0
           [UdpRead (Ok (repeat x00 10, addrA)) None;
            UdpRead (Ok (repeat x00 10, addrB)) None] fresh addrA eq_refl).
  vm_compute. left. reflexivity.
Defined.

(** ** The keepalive ticker *)

Lemma run_ticks_set (b : box) (a : UDPAddr) (draw : nat -> byte * result bytes)
    (sealed : nat -> bytes) (ks : list nat) :
  (forall k, seal b (snd (draw k)) [] [fst (draw k)] = Ok (sealed k)) ->
  forall s, proc s = Running -> raddr s = Some a ->
    udp_writes (trace (run with_keepalive b s
                         (map (fun k => Tick (fst (draw k)) (snd (draw k))) ks)))
    = udp_writes (trace s) ++ map (fun k => (sealed k, a)) ks.
Proof.
  intros Hseal. induction ks as [|k ks IH]; intros s Hp Hr.
  - symmetry. apply app_nil_r.
  - cbn [map]. rewrite run_cons.
    assert (E : step with_keepalive b s (Tick (fst (draw k)) (snd (draw k)))
                = mkState (raddr s) (outbound_running s) (inbound_running s)
                          Running (trace s ++ [conn_WriteToUDP (sealed k) a])).
    { unfold step, keepalive. rewrite Hp, Hr, Hseal. reflexivity. }
    rewrite E, IH by (try reflexivity; exact Hr).
    cbn [trace]. rewrite udp_writes_app, <- app_assoc. reflexivity.
Qed.

Lemma run_ticks_unset (b : box) (ins : list input) :
  (forall i, In i ins -> exists x rand, i = Tick x rand) ->
  forall s, raddr s = None -> run with_keepalive b s ins = s.
Proof.
  induction ins as [|i ins IH]; intros Hticks s Hr; [reflexivity|].
  rewrite run_cons.
  destruct (Hticks i (or_introl eq_refl)) as (x & rand & ->).
  assert (E : step with_keepalive b s (Tick x rand) = s).
  { unfold step, keepalive. rewrite Hr.
    destruct s as [r o i p t]; cbn in *. subst r.
    destruct p; [rewrite app_nil_r|]; reflexivity. }
  rewrite E. apply IH; [|exact Hr].
  intros i Hi. apply Hticks. right. exact Hi.
Qed.

Lemma run_ticks_without_keepalive (b : box) (ins : list input) :
  (forall i, In i ins -> exists x rand, i = Tick x rand) ->
  forall s, run without_keepalive b s ins = s.
Proof.
  induction ins as [|i ins IH]; intros Hticks s; [reflexivity|].
  rewrite run_cons.
  destruct (Hticks i (or_introl eq_refl)) as (x & rand & ->).
  assert (E : step without_keepalive b s (Tick x rand) = s)
    by (unfold step; destruct (proc s); reflexivity).
  rewrite E. apply IH. intros i Hi. apply Hticks. right. exact Hi.
Qed.

Lemma ticker_inputs_are_ticks (elapsed : Z) (draw : nat -> byte * result bytes)
    (i : input) :
  In i (ticker_inputs elapsed draw) -> exists x rand, i = Tick x rand.
Proof.
  unfold ticker_inputs. intros H. apply in_map_iff in H.
  destruct H as (k & <- & _). eexists; eexists; reflexivity.
Qed.

(** C7, as amended: in the revision that has the keepalive goroutine, one
    tick every 15 seconds; at a tick with the peer address unset nothing is
    emitted; with the peer address set exactly one datagram is written to
    the peer, the seal of one random byte: 41 bytes that [open] accepts when
    encryption is enabled, the byte itself when it is disabled.  The
    revision without the keepalive goroutine emits nothing on a timer. *)
Theorem keepalive_tick (b : box) (r : byte) (rand : result bytes) :
  keepalive b None r rand = [] /\
  (forall a msg, seal b rand [] [r] = Ok msg ->
     keepalive b (Some a) r rand = [conn_WriteToUDP msg a]) /\
  (forall a nonce, enable b = true -> length nonce = 24%nat ->
     exists msg,
       keepalive b (Some a) r (Ok nonce) = [conn_WriteToUDP msg a] /\
       length msg = 41%nat /\ open b [] msg = Some [r]) /\
  (forall a, enable b = false ->
     keepalive b (Some a) r rand = [conn_WriteToUDP [r] a]) /\
  (forall s, proc s = Running ->
     trace (step with_keepalive b s (Tick r rand))
     = trace s ++ keepalive b (raddr s) r rand) /\
  (forall s a elapsed draw sealed,
     proc s = Running -> raddr s = Some a ->
     (forall k, seal b (snd (draw k)) [] [fst (draw k)] = Ok (sealed k)) ->
     udp_writes (trace (run with_keepalive b s (ticker_inputs elapsed draw)))
     = udp_writes (trace s)
       ++ map (fun k => (sealed k, a))
              (seq 0 (Z.to_nat (elapsed / 15000000000)))) /\
  (forall s elapsed draw,
     raddr s = None ->
     run with_keepalive b s (ticker_inputs elapsed draw) = s) /\
  (forall s elapsed draw,
     run without_keepalive b s (ticker_inputs elapsed draw) = s).
Proof.
  split; [reflexivity|]. split; [|split; [|split; [|split; [|split; [|split]]]]].
  - intros a msg Hs. unfold keepalive. rewrite Hs. reflexivity.
  - intros a nonce He Hn. exists (wire_format_code nonce (key b) [r]).
    split; [|split].
    + unfold keepalive. rewrite seal_enabled by exact He. reflexivity.
    + rewrite wire_format_code_length, Hn. reflexivity.
    + apply open_seal; assumption.
  - intros a He. unfold keepalive. rewrite seal_disabled by exact He.
    reflexivity.
  - intros s Hp. unfold step. rewrite Hp. reflexivity.
  - intros s a elapsed draw sealed Hp Hr Hseal.
    apply (run_ticks_set b a draw sealed _ Hseal s Hp Hr).
  - intros s elapsed draw Hr.
    apply run_ticks_unset; [apply ticker_inputs_are_ticks | exact Hr].
  - intros s elapsed draw.
    apply run_ticks_without_keepalive, ticker_inputs_are_ticks.
Qed.

(** C7 as stated fails on the revision without the keepalive goroutine:
    with the peer address set, 31.5 seconds of timer bring no datagram,
    where the revision with the goroutine writes two. *)
Lemma no_keepalive_without_the_goroutine :
  raddr (mkState (Some addrB) true true Running []) = Some addrB /\
  udp_writes
    (trace (run without_keepalive zero_box
              (mkState (Some addrB) true true Running [])
              (ticker_inputs 31500000000 (fun _ => (x07, Ok nonce2)))))
  = [] /\
  udp_writes
    (trace (run with_keepalive zero_box
              (mkState (Some addrB) true true Running [])
              (ticker_inputs 31500000000 (fun _ => (x07, Ok nonce2)))))
  = [([x07], addrB); ([x07], addrB)].
Proof.
  vm_compute. repeat split.
Qed.

Lemma keepalive_tick_witness :
  enable box1 = true /\ length nonce2 = 24%nat /\
  (exists msg,
     keepalive box1 (Some addrB) x07 (Ok nonce2) = [conn_WriteToUDP msg addrB] /\
     length msg = 41%nat /\ open box1 [] msg = Some [x07]) /\
  udp_writes
    (trace (run with_keepalive box1
              (mkState (Some addrB) true true Running [])
              (ticker_inputs 15000000000 (fun _ => (x07, Ok nonce2)))))
  = [(wire_format_code nonce2 key1 [x07], addrB)] /\
  udp_writes
    (trace (run with_keepalive box1
              (mkState (Some addrB) true true Running [])
              (ticker_inputs 14999999999 (fun _ => (x07, Ok nonce2)))))
  = [].
Proof.
  split; [reflexivity|]. split; [reflexivity|].
  destruct (keepalive_tick box1 x07 (Ok nonce2))
    as (_ & _ & He & _ & _ & Ht & _ & _).
  split; [apply (He addrB nonce2); reflexivity|].
  split.
  - apply (Ht (mkState (Some addrB) true true Running []) addrB 15000000000
              (fun _ => (x07, Ok nonce2))
              (fun _ => wire_format_code nonce2 key1 [x07])
              eq_refl eq_refl).
    intros k. apply (seal_enabled box1 nonce2 [] [x07] eq_refl).
  - apply (Ht (mkState (Some addrB) true true Running []) addrB 14999999999
              (fun _ => (x07, Ok nonce2))
              (fun _ => wire_format_code nonce2 key1 [x07])
              eq_refl eq_refl).
    intros k. apply (seal_enabled box1 nonce2 [] [x07] eq_refl).
Defined.
